(** * kanguru: the data-preparation scripts, embedded and checked

    The four scripts under [scripts/] are short batch pipelines.  Their
    pure parts are embedded here function by function:

    - [generate_explanations_from_pdf.py]: [cluster_columns],
      [compute_crop], [normalize_token], [extract_label_positions], the
      per-question request loop of [main], call by call, and its
      argument checks;
    - [extract_label_positions.py]: [LABEL_PATTERN], [VALID_IDS],
      [extract_for_pdf], [main];
    - [extract_solutions.py] and [ocr_translate_solutions.py]: the
      whitespace-tolerant header patterns, [find_section], the mapping
      from item numbers to question ids, and the argument checks;
    - [extract_solutions.py]: the scan of [extract_text_from_pdf] for
      literals in decompressed streams, the cleaning of the text, the
      pattern of the solutions and [main] up to its search;
    - [ocr_translate_solutions.py]: the batches of [translate_all].

    Numbers: Python [int] is [Z].  A Python [float] is embedded as the
    rational it stands for.  [Explain] evaluates the arithmetic of the
    crop heuristic exactly.  [Explain64] is the same code with every
    operation on floats rounded to binary64 (to the nearest number, ties
    to the even significand; infinities are not modelled): it is the
    model of the statements that rounding reaches, the bounds of the
    rectangle and the lower edge above a next item.  [int(x)] on a float
    is truncation toward zero.

    Text: a Python [str] is embedded as a [string] of 8-bit characters,
    read as the code points 0..255. *)

From Stdlib Require Import ZArith QArith Qabs Qround Qfield Lqa Lia Qpower Qreduction.
From Stdlib Require Import List Bool Ascii String Permutation Sorted.
From stdpp Require Import base option list strings pretty gmap.

Local Open Scope Z_scope.

(** ** Python numbers *)

Module Py.

(** [int(q)] for a float [q]: truncation toward zero. *)
Definition int (q : Q) : Z := Z.quot (Qnum q) (Z.pos (Qden q)).

(** [a < b] on floats. *)
Definition ltb (a b : Q) : bool := negb (Qle_bool b a).

(** [max(a, b)]: the first argument unless the second is greater. *)
Definition max (a b : Q) : Q := if ltb a b then b else a.

(** [min(a, b)]: the first argument unless the second is smaller. *)
Definition min (a b : Q) : Q := if ltb b a then b else a.

(** [abs(q)]. *)
Definition abs (q : Q) : Q := Qabs q.

(** [sum(...)] of floats, starting from [0]. *)
Definition sum (l : list Q) : Q := fold_left Qplus l 0%Q.

(** Truth value of a number: non-zero. *)
Definition truthy (q : Q) : bool := negb (Qeq_bool q 0).

(** [sorted(l, key=key)]: Python's sort is stable, so the result is the
    one a stable insertion sort gives.  [ltk] is [<] on the keys. *)
Section Sorted.
Context {A K : Type} (ltk : K -> K -> bool) (key : A -> K).

Fixpoint insert_by (x : A) (l : list A) : list A :=
  match l with
  | [] => [x]
  | y :: l' => if ltk (key y) (key x) then y :: insert_by x l'
               else x :: y :: l'
  end.

(** The input is consumed from its right end, so that among equal keys
    an earlier element of the input stays in front. *)
Fixpoint sorted_by (l : list A) : list A :=
  match l with
  | [] => []
  | x :: l' => insert_by x (sorted_by l')
  end.
End Sorted.

(** Sorting on a float key. *)
Definition sorted {A} (key : A -> Q) : list A -> list A := sorted_by ltb key.

(** [<] on pairs of floats, as Python compares tuples. *)
Definition lt_pair (a b : Q * Q) : bool :=
  ltb (fst a) (fst b) || (Qeq_bool (fst a) (fst b) && ltb (snd a) (snd b)).

(** Characters are the code points 0..255. *)
Definition code (c : ascii) : N := N_of_ascii c.

Definition between (lo hi : N) (c : ascii) : bool :=
  (lo <=? code c)%N && (code c <=? hi)%N.

(** [c.isspace()], also the class [\s] of [re] on [str] patterns:
    TAB..CR, FS..US, SPACE, NEL and NBSP. *)
Definition isspace (c : ascii) : bool :=
  between 9 13 c || between 28 32 c || (code c =? 133)%N || (code c =? 160)%N.

(** [A-Za-z0-9] *)
Definition is_upper (c : ascii) : bool := between 65 90 c.
Definition is_lower (c : ascii) : bool := between 97 122 c.
Definition is_digit (c : ascii) : bool := between 48 57 c.
Definition is_alnum (c : ascii) : bool := is_upper c || is_lower c || is_digit c.

(** [s.lstrip()], [s.rstrip()], [s.strip()] *)
Fixpoint lstrip (s : string) : string :=
  match s with
  | String c s' => if isspace c then lstrip s' else s
  | EmptyString => EmptyString
  end.

Fixpoint rstrip (s : string) : string :=
  match s with
  | String c s' =>
      match rstrip s' with
      | EmptyString => if isspace c then EmptyString else String c EmptyString
      | r => String c r
      end
  | EmptyString => EmptyString
  end.

Definition strip (s : string) : string := rstrip (lstrip s).

(** [re.sub(r'[^A-Za-z0-9]', '', s)] *)
Fixpoint keep_alnum (s : string) : string :=
  match s with
  | String c s' => if is_alnum c then String c (keep_alnum s') else keep_alnum s'
  | EmptyString => EmptyString
  end.

(** Truth value of a string: non-empty. *)
Definition nonempty (s : string) : bool :=
  match s with EmptyString => false | _ => true end.

(** [str(n)] for an integer. *)
Definition str (n : Z) : string := pretty n.

End Py.

(** ** generate_explanations_from_pdf.py: columns and crops *)

Module Box.
(** A label's bounding box, the value stored under a question id:
    [{'left': .., 'top': .., 'right': .., 'bottom': ..}]. *)
Record t := mk { left : Q; top : Q; right : Q; bottom : Q }.
End Box.

Module Explain.

(** A Python [dict] keeps insertion order and [compute_crop] iterates over
    it, so [label_positions] is an association list in insertion order;
    [dict_get] is [d.get(k)]. *)
Definition dict (V : Type) : Type := list (string * V).

Fixpoint dict_get {V} (k : string) (d : dict V) : option V :=
  match d with
  | [] => None
  | (k', v) :: d' => if String.eqb k' k then Some v else dict_get k d'
  end.

(** [{'id': key, 'left': .., 'top': ..}] *)
Record pos := mkpos { id : string; left : Q; top : Q }.

(** [{'center': .., 'items': [..]}] *)
Record cluster := mkcluster { center : Q; items : list pos }.

Definition tolerance : Q := 90.

(** [sum(item['left'] for item in its) / len(its)] *)
Definition mean_left (its : list pos) : Q :=
  (Py.sum (map left its) / inject_Z (Z.of_nat (length its)))%Q.

(** One turn of the loop of [cluster_columns]: [clusters[-1]] is the last
    element of the list. *)
Definition cluster_step (clusters : list cluster) (p : pos) : list cluster :=
  match last clusters with
  | None => clusters ++ [mkcluster (left p) [p]]
  | Some c =>
      if Py.ltb tolerance (Py.abs (left p - center c))
      then clusters ++ [mkcluster (left p) [p]]
      else let its := items c ++ [p] in
           removelast clusters ++ [mkcluster (mean_left its) its]
  end.

Definition cluster_columns (positions : list pos) : list cluster :=
  fold_left cluster_step (Py.sorted left positions) [].

(** [min(range(len(ds)), key=lambda i: ds[i])]: the first index whose
    value is minimal.  [argmin_from] scans the rest of the list, holding
    the best index and value so far. *)
Fixpoint argmin_from (best : nat) (best_d : Q) (i : nat) (ds : list Q) : nat :=
  match ds with
  | [] => best
  | d :: ds' => if Py.ltb d best_d then argmin_from i d (S i) ds'
                else argmin_from best best_d (S i) ds'
  end.

Definition argmin (ds : list Q) : nat :=
  match ds with
  | [] => O
  | d :: ds' => argmin_from O d 1%nat ds'
  end.

Definition padding_top : Q := 24.
Definition padding_bottom : Q := 16.
Definition padding_x : Q := 18.

(** The part of [compute_crop] run once [current] is known: everything
    is a function of [qid], the label dictionary and the image size. *)
Section ComputeCrop.
Variables (qid : string) (label_positions : dict Box.t).
Variables (image_w image_h : Z).

Definition positions : list pos :=
  map (fun kv => mkpos (fst kv) (Box.left (snd kv)) (Box.top (snd kv)))
      label_positions.

Definition clusters : list cluster := cluster_columns positions.

Definition centers : list Q := Py.sorted (fun c => c) (map center clusters).

Definition column_index (current : Box.t) : nat :=
  argmin (map (fun c => Py.abs (c - Box.left current)) centers).

Definition left_boundary (current : Box.t) : Q :=
  match centers with
  | [] => 0
  | _ =>
      let idx := column_index current in
      match idx with
      | O => 0
      | S i => (nth i centers 0 + nth idx centers 0) / 2
      end
  end%Q.

Definition right_boundary (current : Box.t) : Q :=
  match centers with
  | [] => inject_Z image_w
  | _ =>
      let idx := column_index current in
      if Nat.eqb idx (length centers - 1)
      then inject_Z image_w
      else (nth idx centers 0 + nth (S idx) centers 0) / 2
  end%Q.

(** [column_items], after [sorted(column_items, key=top)]. *)
Definition column_items (current : Box.t) : list pos :=
  Py.sorted top
    match centers with
    | [] => positions
    | _ => match clusters !! column_index current with
           | Some c => items c
           | None => []
           end
    end.

(** [next((i for i, item in enumerate(column) if item['id'] == qid), -1)];
    [None] stands for [-1]. *)
Fixpoint index_of_id (column : list pos) : option nat :=
  match column with
  | [] => None
  | item :: column' =>
      if String.eqb (id item) qid then Some O
      else S <$> index_of_id column'
  end.

Definition current_index (current : Box.t) : option nat :=
  index_of_id (column_items current).

(** The [for .. break] loop over [column_items[current_index + 1:]]. *)
Definition next_item (current : Box.t) : option pos :=
  match current_index current with
  | None => None
  | Some i =>
      List.find (fun item => Py.ltb (Box.top current + 4) (top item))
                (drop (S i) (column_items current))
  end.

(** [top = max(0, current['top'] - padding_top)] *)
Definition crop_top (current : Box.t) : Q :=
  Py.max 0 (Box.top current - padding_top).

(** The gaps above 24 between consecutive items of the column. *)
Fixpoint gaps_of (column : list pos) : list Q :=
  match column with
  | a :: (b :: _) as column' =>
      let gap := (top b - top a)%Q in
      if Py.ltb 24 gap then gap :: gaps_of column' else gaps_of column'
  | _ => []
  end.

(** [gaps[len(gaps) // 2] if gaps else None], on the sorted gaps. *)
Definition median_gap (current : Box.t) : option Q :=
  let gaps := Py.sorted (fun g => g) (gaps_of (column_items current)) in
  gaps !! (length gaps / 2)%nat.

(** [column_items[current_index - 1] if current_index > 0 else None] *)
Definition prev_item (current : Box.t) : option pos :=
  match current_index current with
  | Some (S i) => column_items current !! i
  | _ => None
  end.

(** [median_gap or (current['top'] - prev_item['top'] if prev_item
    else image_h * 0.25)] *)
Definition estimated (current : Box.t) : Q :=
  let fallback :=
    match prev_item current with
    | Some p => Box.top current - top p
    | None => inject_Z image_h * (25 # 100)
    end%Q in
  match median_gap current with
  | Some g => if Py.truthy g then g else fallback
  | None => fallback
  end.

Definition max_height : Q := inject_Z image_h * (55 # 100).

Definition crop_bottom (current : Box.t) : Q :=
  match next_item current with
  | Some nxt => Py.max (crop_top current + 140) (top nxt - padding_bottom)
  | None =>
      Py.min (inject_Z image_h)
             (Box.top current
              + Py.min max_height (Py.max 220 (estimated current * (135 # 100))))
  end%Q.

Definition crop_left (current : Box.t) : Z :=
  Z.max 0 (Py.int (left_boundary current - padding_x)).

Definition crop_right (current : Box.t) : Z :=
  Z.min image_w (Py.int (right_boundary current + padding_x)).

Definition crop_width (current : Box.t) : Z :=
  Z.max 140 (crop_right current - crop_left current).

(** [min(image_h - top, max(200, int(bottom - top)))]: a float when
    the first argument is chosen, hence a [Q]. *)
Definition crop_height (current : Box.t) : Q :=
  Py.min (inject_Z image_h - crop_top current)
         (inject_Z (Z.max 200 (Py.int (crop_bottom current - crop_top current)))).

(** [(left, top, width, height)] *)
Definition compute_crop : Z * Z * Z * Q :=
  match dict_get qid label_positions with
  | None => (0, 0, image_w, inject_Z image_h)
  | Some current =>
      (crop_left current, Py.int (crop_top current),
       crop_width current, crop_height current)
  end.
End ComputeCrop.

(** *** Label detection on a page *)

(** [c.upper()] on the code points 0..255.  The sharp s becomes ["SS"];
    the capitals of the micro sign and of y-diaeresis lie above 255 and
    are not ASCII letters, so these two are left in place: the
    substitution in [normalize_token] drops them either way. *)
Definition upper_char (c : ascii) : string :=
  if Py.is_lower c then String (ascii_of_N (Py.code c - 32)) EmptyString
  else if (Py.code c =? 223)%N then "SS"
  else if Py.between 224 254 c && negb (Py.code c =? 247)%N
       then String (ascii_of_N (Py.code c - 32)) EmptyString
  else String c EmptyString.

Fixpoint upper (s : string) : string :=
  match s with
  | String c s' => String.append (upper_char c) (upper s')
  | EmptyString => EmptyString
  end.

(** [s.replace('O', '0')] *)
Fixpoint replace_O (s : string) : string :=
  match s with
  | String c s' => String (if Ascii.eqb c "O" then "0"%char else c) (replace_O s')
  | EmptyString => EmptyString
  end.

Definition normalize_token (token : string) : string :=
  replace_O (Py.keep_alnum (upper token)).

(** A word of [parse_pdf_bbox]. *)
Record word := mkword { xMin : Q; yMin : Q; xMax : Q; yMax : Q; text : string }.

(** [{'y': .., 'words': [..]}] *)
Record line := mkline { y : Q; words : list word }.

Definition line_tolerance : Q := 25 # 10.

(** The first line within the tolerance takes the word and moves its [y]
    to the midpoint; [None] when no line is close enough. *)
Fixpoint join_line (w : word) (lines : list line) : option (list line) :=
  match lines with
  | [] => None
  | l :: lines' =>
      if Qle_bool (Py.abs (y l - yMin w)) line_tolerance
      then Some (mkline ((y l + yMin w) / 2) (words l ++ [w]) :: lines')
      else cons l <$> join_line w lines'
  end.

Definition group_step (lines : list line) (w : word) : list line :=
  match join_line w lines with
  | Some lines' => lines'
  | None => lines ++ [mkline (yMin w) [w]]
  end.

Definition mem (s : string) (l : list string) : bool := existsb (String.eqb s) l.

(** [positions[label] = v]: an existing key keeps its place. *)
Fixpoint dict_set {V} (k : string) (v : V) (d : dict V) : dict V :=
  match d with
  | [] => [(k, v)]
  | (k', v') :: d' => if String.eqb k' k then (k', v) :: d'
                      else (k', v') :: dict_set k v d'
  end.

Section ExtractLabelPositions.
Variables (question_ids : list string) (scale_x scale_y : Q).

(** The label a word yields, with its unscaled box: the word itself,
    or a letter followed on its line by a number. *)
Definition label_at (w : word) (rest : list word) : option (string * Box.t) :=
  let token := normalize_token (text w) in
  if mem token question_ids
  then Some (token, Box.mk (xMin w) (yMin w) (xMax w) (yMax w))
  else if mem token ["A"; "B"; "C"]
  then match rest with
       | w' :: _ =>
           let next_token := normalize_token (text w') in
           if mem next_token (map Py.str [1; 2; 3; 4; 5; 6; 7; 8; 9; 10])
           then Some (String.append token next_token,
                      Box.mk (Py.min (xMin w) (xMin w')) (Py.min (yMin w) (yMin w'))
                             (Py.max (xMax w) (xMax w')) (Py.max (yMax w) (yMax w')))
           else None
       | [] => None
       end
  else None.

(** [if label and label in label_set: ..]: the stored box is scaled,
    the comparison reads the unscaled [left] against the stored one. *)
Definition record_label (positions : dict Box.t) (found : option (string * Box.t))
  : dict Box.t :=
  match found with
  | Some (label, b) =>
      if Py.nonempty label && mem label question_ids
      then
        let scaled := Box.mk (Box.left b * scale_x) (Box.top b * scale_y)
                             (Box.right b * scale_x) (Box.bottom b * scale_y) in
        match dict_get label positions with
        | None => dict_set label scaled positions
        | Some existing =>
            if Py.ltb (Box.left b) (Box.left existing)
            then dict_set label scaled positions
            else positions
        end
      else positions
  | None => positions
  end.

(** [for idx, word in enumerate(line_words)] *)
Fixpoint scan_line (line_words : list word) (positions : dict Box.t) : dict Box.t :=
  match line_words with
  | [] => positions
  | w :: rest => scan_line rest (record_label positions (label_at w rest))
  end.

Definition extract_label_positions (ws : list word) : dict Box.t :=
  let lines := fold_left group_step ws [] in
  fold_left (fun positions l => scan_line (Py.sorted xMin (words l)) positions)
            lines [].
End ExtractLabelPositions.

(** *** The request loop of [main] *)

#[local] Unset Elimination Schemes.
(** What [json.loads] returns. *)
Inductive json :=
| JNull | JBool (b : bool) | JNum (q : Q) | JStr (s : string)
| JArr (l : list json) | JObj (d : list (string * json)).
#[local] Set Elimination Schemes.

Inductive exn := Exception (name : string).

Inductive result (A : Type) := Ok (a : A) | Raised (e : exn).
Arguments Ok {A} a.
Arguments Raised {A} e.

(** Calls that leave the process.  An [ImageRequest] is one call of
    [openai_explain_question] (which repeats its HTTP request once without
    [response_format] on an HTTP error before it returns or raises), a
    [TextRequest] one call of [openai_explain_from_text]; console output
    is not recorded. *)
Inductive request :=
| ImageRequest (image_path qid answer : string)
| OcrRun (image_path : string)
| TextRequest (question_text qid answer : string).

(** The outside world answers each call as a function of the calls made
    before it. *)
Record world := mkworld {
  image_reply : list request -> result json;
  ocr_stdout : list request -> string;
  text_reply : list request -> result json
}.

(** A computation that makes calls and may raise. *)
Definition M (A : Type) : Type := list request -> result A * list request.

Definition ret {A} (a : A) : M A := fun log => (Ok a, log).

Definition raise {A} (e : exn) : M A := fun log => (Raised e, log).

Definition bind {A B} (m : M A) (k : A -> M B) : M B :=
  fun log => match m log with
             | (Ok a, log') => k a log'
             | (Raised e, log') => (Raised e, log')
             end.

(** [try: m  except Exception: h] *)
Definition try_except {A} (m h : M A) : M A :=
  fun log => match m log with
             | (Ok a, log') => (Ok a, log')
             | (Raised _, log') => h log'
             end.

Notation "x <- m ;; k" := (bind m (fun x => k))
  (at level 100, m at next level, right associativity).

Section RequestLoop.
Variable w : world.

Definition openai_explain_question (image_path qid answer : string) : M json :=
  fun log => (image_reply w log, log ++ [ImageRequest image_path qid answer]).

Definition tesseract (image_path : string) : M string :=
  fun log => (Ok (ocr_stdout w log), log ++ [OcrRun image_path]).

Definition openai_explain_from_text (question_text qid answer : string) : M json :=
  fun log => (text_reply w log, log ++ [TextRequest question_text qid answer]).

(** [not explanation.get('story', '').strip()]; only a [dict] has
    [get], only a [str] has [strip]. *)
Definition story_missing (explanation : json) : M bool :=
  match explanation with
  | JObj d =>
      match dict_get "story" d with
      | None => ret true
      | Some (JStr s) => ret (negb (Py.nonempty (Py.strip s)))
      | Some _ => raise (Exception "AttributeError")
      end
  | _ => raise (Exception "AttributeError")
  end.

(** The body of [for qid in qids], from the first request on. *)
Definition explain_qid (crop_path qid answer : string)
           (explanations : dict json) : M (dict json) :=
  explanation <- try_except (openai_explain_question crop_path qid answer)
                            (openai_explain_question crop_path qid answer) ;;
  missing <- story_missing explanation ;;
  explanation <- (if missing : bool
                  then ocr_text <- tesseract crop_path ;;
                       openai_explain_from_text ocr_text qid answer
                  else ret explanation) ;;
  ret (dict_set qid explanation explanations).
End RequestLoop.

(** *** Command line of [main] *)

Inductive message :=
| Usage
| FileNotFound (pdf_path : string)
| NoAnswerKey (year : string).

Inductive status :=
| Exit (code : Z)
| Proceed (pdf_path year : string).

Definition ANSWER_KEYS_years : list string := ["2025"; "2024"; "2023"].

(** [main] up to the first use of the PDF: what is printed, and whether
    the process has exited.  [argv] is [sys.argv]. *)
Definition main_args (argv : list string) (path_exists : string -> bool)
  : list message * status :=
  match argv with
  | _ :: pdf_path :: year :: _ =>
      if negb (path_exists pdf_path) then ([FileNotFound pdf_path], Exit 1)
      else if negb (mem year ANSWER_KEYS_years) then ([NoAnswerKey year], Exit 1)
      else ([], Proceed pdf_path year)
  | _ => ([Usage], Exit 1)
  end.

End Explain.

(** ** Rounding to binary64 *)

Module Float.

Definition pow2 (k : Z) : Q := (2 ^ k)%Q.

(** The integer nearest to [x], the even one of two equally near. *)
Definition rne (x : Q) : Z :=
  let f := Qfloor x in
  match (x - inject_Z f ?= 1 # 2)%Q with
  | Lt => f
  | Gt => f + 1
  | Eq => if Z.even f then f else f + 1
  end.

(** The exponent of the leading bit of a positive [q]:
    [2^mag q <= q < 2^(mag q + 1)]. *)
Definition mag (q : Q) : Z :=
  let e0 := Z.log2 (Qnum q) - Z.log2 (Z.pos (Qden q)) in
  if Qle_bool (pow2 e0) q then e0 else e0 - 1.

(** The exponent of the unit in the last place: 53 bits of precision,
    and the fixed step [2^-1074] of the subnormal numbers. *)
Definition ulp_exp (q : Q) : Z := Z.max (mag q - 52) (-1074).

Definition round_pos (q : Q) : Q :=
  let k := ulp_exp q in (inject_Z (rne (q / pow2 k)) * pow2 k)%Q.

(** The binary64 number nearest to [q], ties to the even significand. *)
Definition round64 (q : Q) : Q :=
  Qred match (q ?= 0)%Q with
       | Eq => 0
       | Gt => round_pos q
       | Lt => - round_pos (- q)
       end%Q.

End Float.

(** ** Python numbers in binary64 *)

Module Num.

(** A number of the crop computation: an [int], or a [float] given by
    the rational it stands for. *)
Inductive num := Int (n : Z) | Flt (x : Q).

(** The value, as Python compares an [int] with a [float]: exactly. *)
Definition val (a : num) : Q :=
  match a with
  | Int n => inject_Z n
  | Flt x => x
  end.

(** [float(a)] *)
Definition float (a : num) : Q :=
  match a with
  | Int n => Float.round64 (inject_Z n)
  | Flt x => x
  end.

(** [a + b], [a - b], [a * b]: exact on two [int]s, else the operands
    become [float]s and the result is rounded. *)
Definition add (a b : num) : num :=
  match a, b with
  | Int m, Int n => Int (m + n)
  | _, _ => Flt (Float.round64 (float a + float b))
  end.

Definition sub (a b : num) : num :=
  match a, b with
  | Int m, Int n => Int (m - n)
  | _, _ => Flt (Float.round64 (float a - float b))
  end.

Definition mul (a b : num) : num :=
  match a, b with
  | Int m, Int n => Int (m * n)
  | _, _ => Flt (Float.round64 (float a * float b))
  end.

(** [a / b] where one operand is a [float]. *)
Definition div (a b : num) : num := Flt (Float.round64 (float a / float b)).

Definition ltb (a b : num) : bool := Py.ltb (val a) (val b).

(** [max(a, b)] and [min(a, b)]: the first argument unless the second is
    greater, or smaller. *)
Definition max (a b : num) : num := if ltb a b then b else a.
Definition min (a b : num) : num := if ltb b a then b else a.

Definition abs (a : num) : num :=
  match a with
  | Int n => Int (Z.abs n)
  | Flt x => Flt (Qabs x)
  end.

(** [int(a)] *)
Definition int (a : num) : Z :=
  match a with
  | Int n => n
  | Flt x => Py.int x
  end.

Definition truthy (a : num) : bool := Py.truthy (val a).

(** A [float] literal of the source. *)
Definition literal (q : Q) : num := Flt (Float.round64 q).

End Num.

(** ** generate_explanations_from_pdf.py: columns and crops in binary64

    The same functions as in [Explain], with every operation on floats
    rounded as the interpreter rounds it.  The coordinates of the labels
    are floats; the sizes of the image, the tolerance and the paddings
    are [int]s.  Results beyond the range of binary64 (infinities) are
    not modelled. *)

Module Explain64.
Import Num.

Definition tolerance : num := Int 90.

(** [sum(item['left'] for item in its) / len(its)] *)
Definition mean_left (its : list Explain.pos) : Q :=
  float (div (fold_left (fun s item => add s (Flt (Explain.left item))) its (Int 0))
             (Int (Z.of_nat (length its)))).

Definition cluster_step (clusters : list Explain.cluster) (p : Explain.pos)
  : list Explain.cluster :=
  match last clusters with
  | None => clusters ++ [Explain.mkcluster (Explain.left p) [p]]
  | Some c =>
      if ltb tolerance (abs (sub (Flt (Explain.left p)) (Flt (Explain.center c))))
      then clusters ++ [Explain.mkcluster (Explain.left p) [p]]
      else let its := Explain.items c ++ [p] in
           removelast clusters ++ [Explain.mkcluster (mean_left its) its]
  end.

Definition cluster_columns (positions : list Explain.pos) : list Explain.cluster :=
  fold_left cluster_step (Py.sorted Explain.left positions) [].

Definition padding_top : num := Int 24.
Definition padding_bottom : num := Int 16.
Definition padding_x : num := Int 18.

Section ComputeCrop.
Variables (qid : string) (label_positions : Explain.dict Box.t).
Variables (image_w image_h : Z).

Definition clusters : list Explain.cluster :=
  cluster_columns (Explain.positions label_positions).

Definition centers : list Q :=
  Py.sorted (fun c => c) (map Explain.center clusters).

(** [min(range(len(centers)), key=lambda i: abs(centers[i] - current_x))] *)
Definition column_index (current : Box.t) : nat :=
  Explain.argmin
    (map (fun c => val (abs (sub (Flt c) (Flt (Box.left current))))) centers).

Definition left_boundary (current : Box.t) : num :=
  match centers with
  | [] => Int 0
  | _ =>
      let idx := column_index current in
      match idx with
      | O => Int 0
      | S i => div (add (Flt (nth i centers 0%Q)) (Flt (nth idx centers 0%Q))) (Int 2)
      end
  end.

Definition right_boundary (current : Box.t) : num :=
  match centers with
  | [] => Int image_w
  | _ =>
      let idx := column_index current in
      if Nat.eqb idx (length centers - 1)
      then Int image_w
      else div (add (Flt (nth idx centers 0%Q)) (Flt (nth (S idx) centers 0%Q))) (Int 2)
  end.

Definition column_items (current : Box.t) : list Explain.pos :=
  Py.sorted Explain.top
    match centers with
    | [] => Explain.positions label_positions
    | _ => match clusters !! column_index current with
           | Some c => Explain.items c
           | None => []
           end
    end.

Definition current_index (current : Box.t) : option nat :=
  Explain.index_of_id qid (column_items current).

(** [item['top'] > current['top'] + 4] *)
Definition next_item (current : Box.t) : option Explain.pos :=
  match current_index current with
  | None => None
  | Some i =>
      List.find (fun item => ltb (add (Flt (Box.top current)) (Int 4))
                                 (Flt (Explain.top item)))
                (drop (S i) (column_items current))
  end.

(** [top = max(0, current['top'] - padding_top)] *)
Definition crop_top (current : Box.t) : num :=
  max (Int 0) (sub (Flt (Box.top current)) padding_top).

(** The gaps above 24 between consecutive items of the column. *)
Fixpoint gaps_of (column : list Explain.pos) : list num :=
  match column with
  | a :: (b :: _) as column' =>
      let gap := sub (Flt (Explain.top b)) (Flt (Explain.top a)) in
      if ltb (Int 24) gap then gap :: gaps_of column' else gaps_of column'
  | _ => []
  end.

Definition median_gap (current : Box.t) : option num :=
  let gaps := Py.sorted val (gaps_of (column_items current)) in
  gaps !! (length gaps / 2)%nat.

Definition prev_item (current : Box.t) : option Explain.pos :=
  match current_index current with
  | Some (S i) => column_items current !! i
  | _ => None
  end.

(** [median_gap or (current['top'] - prev_item['top'] if prev_item
    else image_h * 0.25)] *)
Definition estimated (current : Box.t) : num :=
  let fallback :=
    match prev_item current with
    | Some p => sub (Flt (Box.top current)) (Flt (Explain.top p))
    | None => mul (Int image_h) (literal (25 # 100))
    end in
  match median_gap current with
  | Some g => if truthy g then g else fallback
  | None => fallback
  end.

Definition max_height : num := mul (Int image_h) (literal (55 # 100)).

Definition crop_bottom (current : Box.t) : num :=
  match next_item current with
  | Some nxt =>
      max (add (crop_top current) (Int 140))
          (sub (Flt (Explain.top nxt)) padding_bottom)
  | None =>
      min (Int image_h)
          (add (Flt (Box.top current))
               (min max_height
                    (max (Int 220) (mul (estimated current) (literal (135 # 100))))))
  end.

Definition crop_left (current : Box.t) : Z :=
  Z.max 0 (int (sub (left_boundary current) padding_x)).

Definition crop_right (current : Box.t) : Z :=
  Z.min image_w (int (add (right_boundary current) padding_x)).

Definition crop_width (current : Box.t) : Z :=
  Z.max 140 (crop_right current - crop_left current).

(** [min(image_h - top, max(200, int(bottom - top)))] *)
Definition crop_height (current : Box.t) : num :=
  min (sub (Int image_h) (crop_top current))
      (Int (Z.max 200 (int (sub (crop_bottom current) (crop_top current))))).

(** [(left, top, width, height)] *)
Definition compute_crop : Z * Z * Z * num :=
  match Explain.dict_get qid label_positions with
  | None => (0, 0, image_w, Int image_h)
  | Some current =>
      (crop_left current, int (crop_top current),
       crop_width current, crop_height current)
  end.
End ComputeCrop.

End Explain64.

(** ** extract_label_positions.py *)

Module Labels.

(** [LABEL_PATTERN.fullmatch(s)] for [^[ABC](10|[1-9])$]. *)
Definition LABEL_PATTERN (s : string) : bool :=
  match s with
  | String c rest =>
      (Ascii.eqb c "A" || Ascii.eqb c "B" || Ascii.eqb c "C")
      && match rest with
         | String "1" (String "0" EmptyString) => true
         | String d EmptyString => Py.between 49 57 d
         | _ => false
         end
  | EmptyString => false
  end.

Definition one_to_ten : list Z := [1; 2; 3; 4; 5; 6; 7; 8; 9; 10].

(** [{f'A{i}' ..} | {f'B{i}' ..} | {f'C{i}' ..}] *)
Definition VALID_IDS : gset string :=
  list_to_set (map (fun i => String.append "A" (Py.str i)) one_to_ten)
  ∪ list_to_set (map (fun i => String.append "B" (Py.str i)) one_to_ten)
  ∪ list_to_set (map (fun i => String.append "C" (Py.str i)) one_to_ten).

(** One tuple of [re.findall]: the four coordinates, already read as
    numbers, and the text of the word. *)
Record word := mkword { x1 : Q; y1 : Q; x2 : Q; y2 : Q; text : string }.

(** What is read from the HTML of one page. *)
Record page := mkpage { size_match : option (Q * Q); words : list word }.

Definition cleaned (w : word) : string := Py.keep_alnum (text w).

Definition is_label (w : word) : bool :=
  LABEL_PATTERN (cleaned w) && bool_decide (cleaned w ∈ VALID_IDS).

(** [occurrences.setdefault(cleaned, []).append((x1, y1))] *)
Definition occurrences_step (occurrences : gmap string (list (Q * Q))) (w : word)
  : gmap string (list (Q * Q)) :=
  if is_label w
  then <[cleaned w := default [] (occurrences !! cleaned w) ++ [(x1 w, y1 w)]]> occurrences
  else occurrences.

Definition occurrences_of (ws : list word) : gmap string (list (Q * Q)) :=
  fold_left occurrences_step ws ∅.

(** [coords.sort(key=lambda value: (value[0], value[1]))] and
    [coords[0]]; no list of occurrences is empty. *)
Definition first_sorted (coords : list (Q * Q)) : option (Q * Q) :=
  head (Py.sorted_by Py.lt_pair (fun value => (fst value, snd value)) coords).

(** The [labels] of one page: [{'x': .., 'y': ..}] per label. *)
Definition labels_of (ws : list word) : gmap string (Q * Q) :=
  omap first_sorted (occurrences_of ws).

(** The state of the loop over the pages: [(page_sizes, label_positions)]. *)
Definition output : Type := gmap string (Q * Q) * gmap string (gmap string (Q * Q)).

Definition page_step (out : output) (numbered : nat * page) : output :=
  let '(n, pg) := numbered in
  let key := Py.str (Z.of_nat n) in
  let page_sizes :=
    match size_match pg with
    | Some size => <[key := size]> (fst out)
    | None => fst out
    end in
  let labels := labels_of (words pg) in
  let label_positions :=
    if bool_decide (labels = ∅) then snd out else <[key := labels]> (snd out) in
  (page_sizes, label_positions).

(** [for page in range(1, pages + 1)] *)
Definition numbered (pages : list page) : list (nat * page) :=
  zip (seq 1 (length pages)) pages.

Definition extract_for_pdf (pages : list page) : output :=
  fold_left page_step (numbered pages) (∅, ∅).

(** *** [main] *)

Inductive message := Skipping (pdf_path : string) | Wrote (year : string).

(** The paths of [PDFS], below [ROOT]. *)
Definition PDFS : list (string * string) :=
  [("2025", "public/kangaroo-2025/kangaroo-2025.pdf");
   ("2024", "public/kangaroo-2024/kangaroo-2024.pdf");
   ("2023", "public/kangaroo-2023/kangaroo-2023.pdf")]%string.

Section Main.
(** The file system, and whether reading a PDF that exists goes
    through ([false]: a tool fails, the exception ends the run). *)
Variables (path_exists : string -> bool) (readable : string -> bool).

(** The loop of [main]: the messages printed and the exit status.
    [sys.argv] is never read. *)
Fixpoint main_loop (pdfs : list (string * string)) (printed : list message)
  : list message * Z :=
  match pdfs with
  | [] => (printed, 0)
  | (year, pdf_path) :: pdfs' =>
      if negb (path_exists pdf_path)
      then main_loop pdfs' (printed ++ [Skipping pdf_path])
      else if readable pdf_path
      then main_loop pdfs' (printed ++ [Wrote year])
      else (printed, 1)
  end.

Definition main (argv : list string) : list message * Z := main_loop PDFS [].
End Main.

End Labels.

(** ** extract_solutions.py and ocr_translate_solutions.py *)

Module Solutions.

(** The text being searched is a list of characters. *)
Abbreviation text := (list ascii).

Definition chars (s : string) : text := list_ascii_of_string s.

(** [c.lower()] on the code points 0..255. *)
Definition lower (c : ascii) : ascii :=
  if Py.is_upper c || (Py.between 192 222 c && negb (Py.code c =? 215)%N)
  then ascii_of_N (Py.code c + 32)
  else c.

(** A literal under [re.IGNORECASE]. *)
Definition ci_eq (c x : ascii) : bool := Ascii.eqb (lower c) (lower x).

(** The regular expressions the scripts build: literals, [\s*],
    concatenation and [(?:a|b)]. *)
Inductive regex :=
| Chr (c : ascii)
| Spaces
| Cat (r1 r2 : regex)
| Or (r1 r2 : regex)
| Empty.

(** [r'\s*'.join(map(re.escape, raw))]; letters and digits escape to
    themselves. *)
Fixpoint spaced_pattern (raw : text) : regex :=
  match raw with
  | [] => Empty
  | [c] => Chr c
  | c :: raw' => Cat (Chr c) (Cat Spaces (spaced_pattern raw'))
  end.

Definition header (first second : string) : regex :=
  Cat (spaced_pattern (chars "Klassenstufen"))
    (Cat Spaces
      (Cat (spaced_pattern (chars first))
        (Cat Spaces
          (Cat (Or (spaced_pattern (chars "und")) (spaced_pattern (chars "bis")))
            (Cat Spaces (spaced_pattern (chars second))))))).

Definition section_start : regex := header "7" "8".
Definition section_end : regex := header "9" "10".

(** The backtracking matcher of [re]: [k] is what must match after [r];
    [\s*] is greedy and gives characters back one at a time, an
    alternation tries its branches in order. *)
Section Matcher.
Context {R : Type}.

Fixpoint spaces (k : text -> option R) (s : text) : option R :=
  match s with
  | x :: s' =>
      if Py.isspace x
      then match spaces k s' with
           | Some r => Some r
           | None => k s
           end
      else k s
  | [] => k s
  end.

Fixpoint matching (r : regex) (k : text -> option R) (s : text) : option R :=
  match r with
  | Chr c => match s with
             | x :: s' => if ci_eq c x then k s' else None
             | [] => None
             end
  | Spaces => spaces k s
  | Cat r1 r2 => matching r1 (matching r2 k) s
  | Or r1 r2 => match matching r1 k s with
                | Some res => Some res
                | None => matching r2 k s
                end
  | Empty => k s
  end.
End Matcher.

(** A match of [r] at the start of [s]: what is left of [s] after it. *)
Definition match_at (r : regex) (s : text) : option text := matching r Some s.

(** [search_from r s i]: the first match of [r] in [s], the suffix of the
    text that starts at position [i]; [(m.start(), m.end())]. *)
Fixpoint search_from (r : regex) (s : text) (i : nat) : option (nat * nat) :=
  match match_at r s with
  | Some rest => Some (i, (i + (length s - length rest))%nat)
  | None => match s with
            | [] => None
            | _ :: s' => search_from r s' (S i)
            end
  end.

(** [r.search(t, pos)] *)
Definition search (r : regex) (t : text) (pos : nat) : option (nat * nat) :=
  search_from r (drop pos t) pos.

(** [t[a:b]] *)
Definition slice (t : text) (a b : nat) : text := take (b - a) (drop a t).

Inductive result (A : Type) := Ok (a : A) | ValueError (msg : string).
Arguments Ok {A} a.
Arguments ValueError {A} msg.

(** [find_section] of ocr_translate_solutions.py. *)
Definition find_section (t : text) : result text :=
  match search section_start t 0 with
  | None => ValueError "Could not find section for Klassenstufen 7 und 8"
  | Some (_, start_end) =>
      match search section_end t start_end with
      | None => ValueError "Could not find end section for Klassenstufen 9 und 10"
      | Some (end_start, _) => Ok (slice t start_end end_start)
      end
  end.

(** How a run goes on: the process exits with a status, or carries on
    with a value. *)
Inductive status (A : Type) := Exit (code : Z) | Proceed (a : A).
Arguments Exit {A} code.
Arguments Proceed {A} a.

(** [section = find_section(text)] in [main] of
    ocr_translate_solutions.py: nothing catches the [ValueError], the
    interpreter prints it and exits with status 1. *)
Definition ocr_main_section (t : text) : list string * status text :=
  match find_section t with
  | Ok section => ([], Proceed section)
  | ValueError msg => ([msg], Exit 1)
  end.

(** The same step in [main] of extract_solutions.py: both searches are
    made first, then the two results are tested in turn. *)
Definition main_section (t : text) : list string * status text :=
  let start_match := search section_start t 0 in
  let end_match :=
    search section_end t match start_match with Some (_, e) => e | None => O end in
  match start_match with
  | None => (["Could not find section for Klassenstufen 7 und 8"%string], Exit 1)
  | Some (_, start_end) =>
      match end_match with
      | None => (["Could not find end section for Klassenstufen 9 und 10"%string], Exit 1)
      | Some (end_start, _) => ([], Proceed (slice t start_end end_start))
      end
  end.

(** *** Item numbers and question ids *)

(** [int(num_str)] for a run of digits. *)
Definition int (num_str : string) : Z :=
  fold_left (fun n c => 10 * n + Z.of_N (Py.code c - 48)) (chars num_str) 0.

(** The branches of the loop body: [None] is [continue]. *)
Definition qid_of_num (num : Z) : option string :=
  if negb ((1 <=? num) && (num <=? 30)) then None
  else if num <=? 10 then Some (String.append "A" (Py.str num))
  else if num <=? 20 then Some (String.append "B" (Py.str (num - 10)))
  else Some (String.append "C" (Py.str (num - 20))).

Section Explanations.
(** The clean-up of a solution text; the two scripts strip and
    collapse white space in opposite orders. *)
Variable clean : string -> string.

Definition record_match (explanations : gmap string string)
           (m : string * string) : gmap string string :=
  match qid_of_num (int (fst m)) with
  | None => explanations
  | Some qid => <[qid := clean (snd m)]> explanations
  end.

(** [for num_str, solution in matches] *)
Definition explanations_of (matches : list (string * string)) : gmap string string :=
  fold_left record_match matches ∅.
End Explanations.

(** *** Command line of both [main]s *)

Inductive message := Usage | FileNotFound (pdf_path : string).

Definition main_args (argv : list string) (path_exists : string -> bool)
  : list message * status (string * string) :=
  match argv with
  | _ :: pdf_path :: year :: _ =>
      if negb (path_exists pdf_path) then ([FileNotFound pdf_path], Exit 1)
      else ([], Proceed (pdf_path, year))
  | _ => ([Usage], Exit 1)
  end.

End Solutions.

(** ** generate_explanations_from_pdf.py: the questions of a page, call by call *)

Module Run.

(** What leaves the process during [for qid in qids]: a run of [sips] by
    [crop_image], a POST of [urlopen] with the image (with or without
    [response_format]) or with the OCR text, a run of [tesseract]. *)
Inductive call :=
| Sips (source dest : string)
| ImagePost (response_format : bool) (image_path qid answer : string)
| Tesseract (image_path : string)
| TextPost (question_text qid answer : string).

(** How a POST ends: a body came back, and [parsed] is what reading it
    as JSON, [extract_output_text] and [parse_json_output] make of it;
    or [urlopen] raised [HTTPError]; or it raised something else. *)
Inductive http :=
| Body (parsed : Explain.result Explain.json)
| HTTPError
| Failed (e : Explain.exn).

(** The outside world, answering as a function of the calls made so
    far: whether [OPENAI_API_KEY] is set, whether an image file can be
    read, whether [sips] ends with status 0, how a POST ends, and what
    [tesseract] prints (or the exception of starting it). *)
Record world := mkworld {
  api_key : bool;
  image_bytes : list call -> string -> bool;
  sips_ok : list call -> bool;
  post : list call -> http;
  ocr : list call -> Explain.result string
}.

Definition M (A : Type) : Type := list call -> Explain.result A * list call.

Definition ret {A} (a : A) : M A := fun log => (Explain.Ok a, log).

Definition raise {A} (e : Explain.exn) : M A := fun log => (Explain.Raised e, log).

Definition bind {A B} (m : M A) (k : A -> M B) : M B :=
  fun log => match m log with
             | (Explain.Ok a, log') => k a log'
             | (Explain.Raised e, log') => (Explain.Raised e, log')
             end.

(** [try: m  except Exception: h] *)
Definition try_except {A} (m h : M A) : M A :=
  fun log => match m log with
             | (Explain.Ok a, log') => (Explain.Ok a, log')
             | (Explain.Raised _, log') => h log'
             end.

Definition lift {A} (r : Explain.result A) : M A := fun log => (r, log).

Section Questions.
Variable w : world.
(** [crop_dir], as a prefix of the file names. *)
Variable crop_dir : string.

(** One POST. *)
Definition urlopen (c : call) : M http := fun log => (Explain.Ok (post w log), log ++ [c]).

(** [crop_image]: [subprocess.run(.., check=True)]. *)
Definition crop_image (source dest : string) : M unit :=
  fun log => (if sips_ok w log then Explain.Ok tt
              else Explain.Raised (Explain.Exception "CalledProcessError"),
              log ++ [Sips source dest]).

Definition openai_explain_question (image_path qid answer : string) : M Explain.json :=
  if negb (api_key w) then raise (Explain.Exception "RuntimeError")
  else fun log =>
    if negb (image_bytes w log image_path) then (Explain.Raised (Explain.Exception "OSError"), log)
    else
      bind (urlopen (ImagePost true image_path qid answer))
           (fun first =>
              match first with
              | Body parsed => lift parsed
              | Failed e => raise e
              | HTTPError =>
                  bind (urlopen (ImagePost false image_path qid answer))
                       (fun second =>
                          match second with
                          | Body parsed => lift parsed
                          | Failed e => raise e
                          | HTTPError => raise (Explain.Exception "RuntimeError")
                          end)
              end) log.

Definition openai_explain_from_text (question_text qid answer : string) : M Explain.json :=
  if negb (api_key w) then raise (Explain.Exception "RuntimeError")
  else bind (urlopen (TextPost question_text qid answer))
            (fun reply =>
               match reply with
               | Body parsed => lift parsed
               | Failed e => raise e
               | HTTPError => raise (Explain.Exception "HTTPError")
               end).

(** [subprocess.run(['tesseract', ..], capture_output=True, text=True).stdout] *)
Definition tesseract (image_path : string) : M string :=
  fun log => (ocr w log, log ++ [Tesseract image_path]).

(** [not explanation.get('story', '').strip()] *)
Definition story_missing (explanation : Explain.json) : M bool :=
  match explanation with
  | Explain.JObj d =>
      match Explain.dict_get "story" d with
      | None => ret true
      | Some (Explain.JStr s) => ret (negb (Py.nonempty (Py.strip s)))
      | Some _ => raise (Explain.Exception "AttributeError")
      end
  | _ => raise (Explain.Exception "AttributeError")
  end.

(** One question of the page: its id, [answer_map[qid]], and whether
    the id is a key of [label_positions]. *)
Record job := mkjob { qid : string; answer : string; labelled : bool }.

(** The body of [for qid in qids]. *)
Definition explain_qid (page_path : string) (j : job)
           (explanations : Explain.dict Explain.json)
  : M (Explain.dict Explain.json) :=
  let crop_file := String.append crop_dir (String.append "/" (String.append (qid j) ".jpg")) in
  bind (if labelled j
        then bind (crop_image page_path crop_file) (fun _ => ret crop_file)
        else ret page_path)
       (fun crop_path =>
  bind (try_except (openai_explain_question crop_path (qid j) (answer j))
                   (openai_explain_question crop_path (qid j) (answer j)))
       (fun explanation =>
  bind (story_missing explanation)
       (fun missing =>
  bind (if missing : bool
        then bind (tesseract crop_path)
                  (fun ocr_text => openai_explain_from_text ocr_text (qid j) (answer j))
        else ret explanation)
       (fun explanation' =>
  ret (Explain.dict_set (qid j) explanation' explanations))))).

(** [for qid in qids], for the questions of one page. *)
Fixpoint explain_qids (page_path : string) (jobs : list job)
         (explanations : Explain.dict Explain.json)
  : M (Explain.dict Explain.json) :=
  match jobs with
  | [] => ret explanations
  | j :: jobs' =>
      bind (explain_qid page_path j explanations)
           (fun explanations' => explain_qids page_path jobs' explanations')
  end.
End Questions.

End Run.

(** ** ocr_translate_solutions.py: batches *)

Module Translate.

Definition batch_size : nat := 8.

(** [range(0, stop, step)] for a positive [step]. *)
Definition range_step (stop step : nat) : list nat :=
  map (fun k => (k * step)%nat) (seq 0 ((stop + step - 1) / step)).

(** [items[i:i + batch_size]] for [i] in [range(0, len(items), batch_size)]. *)
Definition batches {A : Type} (items : list A) : list (list A) :=
  map (fun i => take batch_size (drop i items)) (range_step (length items) batch_size).

(** [translated.update(d)] *)
Definition update {V : Type} (translated d : Explain.dict V) : Explain.dict V :=
  fold_left (fun acc kv => Explain.dict_set (fst kv) (snd kv) acc) d translated.

Section TranslateAll.
(** [openai_translate], by the number of calls made before: the dictionary
    read from the answer, or [None] when the call raises. *)
Variable openai_translate : nat -> Explain.dict string -> option (Explain.dict string).

(** The loop of [translate_all]: the result and the number of calls made. *)
Fixpoint translate_loop (todo : list (Explain.dict string)) (calls : nat)
         (translated : Explain.dict string) : option (Explain.dict string) * nat :=
  match todo with
  | [] => (Some translated, calls)
  | batch :: todo' =>
      match openai_translate calls batch with
      | None => (None, S calls)
      | Some answer => translate_loop todo' (S calls) (update translated answer)
      end
  end.

Definition translate_all (explanations : Explain.dict string)
  : option (Explain.dict string) * nat :=
  translate_loop (batches explanations) 0 [].
End TranslateAll.

End Translate.

(** ** extract_solutions.py: the text of the PDF *)

Module Pdf.

(** Bytes are characters: the text is decoded as Latin-1. *)
Abbreviation bytes := (list ascii).

(** Where the scan of a content stream stands: outside any literal, or in
    one, with the depth of parentheses and the bytes gathered so far. *)
Inductive state := Outside | Inside (depth : nat) (buf : bytes).

(** [if buf: texts.append(bytes(buf))] *)
Definition emit (buf : bytes) (texts : list bytes) : list bytes :=
  match buf with
  | [] => texts
  | _ => buf :: texts
  end.

(** The two nested [while] loops over a decompressed stream, as one pass:
    the literals found, in order. *)
Fixpoint scan (ds : bytes) (st : state) : list bytes :=
  match ds with
  | [] => match st with
          | Outside => []
          | Inside _ buf => emit buf []
          end
  | b :: ds' =>
      match st with
      | Outside => if Ascii.eqb b "(" then scan ds' (Inside 1 []) else scan ds' Outside
      | Inside depth buf =>
          if Ascii.eqb b "\"
          then match ds' with
               | c :: ds'' => scan ds'' (Inside depth (buf ++ [c]))
               | [] => scan ds' (Inside depth (buf ++ [b]))
               end
          else if Ascii.eqb b "("
          then scan ds' (Inside (S depth) (buf ++ [b]))
          else if Ascii.eqb b ")"
          then (if Nat.eqb (depth - 1) 0
                then emit buf (scan ds' Outside)
                else scan ds' (Inside (depth - 1) (buf ++ [b])))
          else scan ds' (Inside depth (buf ++ [b]))
      end
  end.

Definition literals (ds : bytes) : list bytes := scan ds Outside.

(** [b"\n".join(texts)] *)
Fixpoint join (texts : list bytes) : bytes :=
  match texts with
  | [] => []
  | [t] => t
  | t :: texts' => t ++ "010"%char :: join texts'
  end.

(** The bytes [re.sub(rb'[^\x09\x0A\x0D\x20-\x7E]', b'', ..)] keeps. *)
Definition kept (b : ascii) : bool :=
  (Py.code b =? 9)%N || (Py.code b =? 10)%N || (Py.code b =? 13)%N
  || Py.between 32 126 b.

(** [re.sub(r'\s+', ' ', text)]: every run of white space becomes one
    space; [in_run] tells that the character before was white space. *)
Fixpoint collapse (in_run : bool) (s : bytes) : bytes :=
  match s with
  | [] => []
  | c :: s' =>
      if Py.isspace c
      then (if in_run then collapse true s' else " "%char :: collapse true s')
      else c :: collapse false s'
  end.

(** [extract_text_from_pdf], from the streams that decompress. *)
Definition extract_text (streams : list bytes) : bytes :=
  collapse false (List.filter kept (join (concat (map literals streams)))).

End Pdf.

(** ** extract_solutions.py: the search for solutions in [main] *)

Module SolutionsMain.

(** The pattern of the solutions: the header patterns' expressions, and
    with them [\d+], a class of characters, [.*?], a look-ahead and [$]. *)
Inductive rx :=
| Re (r : Solutions.regex)
| Digits
| Class (cs : list ascii)
| LazyAny
| Seq (a b : rx)
| Alt (a b : rx)
| Ahead (r : rx)
| End_.

Section Matcher.
Context {R : Type}.

(** [\d*], greedy. *)
Fixpoint digits_star (k : list ascii -> option R) (s : list ascii) : option R :=
  match s with
  | x :: s' =>
      if Py.is_digit x
      then match digits_star k s' with
           | Some r => Some r
           | None => k s
           end
      else k s
  | [] => k s
  end.

(** [.*?]: as few characters as will do, none of them a newline. *)
Fixpoint lazy_any (k : list ascii -> option R) (s : list ascii) : option R :=
  match k s with
  | Some r => Some r
  | None => match s with
            | x :: s' => if Ascii.eqb x "010" then None else lazy_any k s'
            | [] => None
            end
  end.
End Matcher.

Fixpoint matching (r : rx) {R : Type} (k : list ascii -> option R) (s : list ascii)
  : option R :=
  match r with
  | Re r0 => Solutions.matching r0 k s
  | Digits => match s with
              | x :: s' => if Py.is_digit x then digits_star k s' else None
              | [] => None
              end
  | Class cs => match s with
                | x :: s' => if existsb (Ascii.eqb x) cs then k s' else None
                | [] => None
                end
  | LazyAny => lazy_any k s
  | Seq a b => matching a (matching b k) s
  | Alt a b => match matching a k s with
               | Some res => Some res
               | None => matching b k s
               end
  | Ahead a => match matching a (fun _ => Some tt) s with
               | Some _ => k s
               | None => None
               end
  | End_ => match s with
            | [] => k s
            | [x] => if Ascii.eqb x "010" then k s else None
            | _ => None
            end
  end.

(** The characters of the word the pattern looks for, its second letter
    being o-umlaut, code point 246. *)
Definition Loesung : list ascii :=
  ["L"; ascii_of_N 246; "s"; "u"; "n"; "g"]%char.

Definition loesung : rx := Re (Solutions.spaced_pattern Loesung).

Definition marker : rx :=
  Seq Digits (Seq (Re Solutions.Spaces) (Seq loesung
    (Seq (Re Solutions.Spaces) (Class [":"; "."]%char)))).

(** [(\d+)\s*L..g\s*[:\.]\s*(.*?)(?=\d+\s*L..g\s*[:\.]|$)] *)
Definition pattern : rx :=
  Seq marker (Seq (Re Solutions.Spaces) (Seq LazyAny (Ahead (Alt marker End_)))).

(** Whether [pattern.findall(section)] finds anything: a match starts at
    some position. *)
Fixpoint any_match (r : rx) (s : list ascii) : bool :=
  match matching r (fun _ => Some tt) s with
  | Some _ => true
  | None => match s with
            | [] => false
            | _ :: s' => any_match r s'
            end
  end.

(** [main] from the text on: the two headers, then the solutions; what is
    printed before the process exits, or the section to go on with. *)
Definition main_text (t : list ascii) : list string * Solutions.status (list ascii) :=
  match Solutions.main_section t with
  | (printed, Solutions.Exit code) => (printed, Solutions.Exit code)
  | (printed, Solutions.Proceed section) =>
      if any_match pattern section
      then (printed, Solutions.Proceed section)
      else (printed ++ ["No solutions found in section"%string], Solutions.Exit 1)
  end.

(** [main]: the arguments, the text of the PDF, the search; how the run
    ends, or the section whose solutions are written out. *)
Definition main (argv : list string) (path_exists : string -> bool)
           (streams : list Pdf.bytes) : Solutions.status (list ascii) :=
  match Solutions.main_args argv path_exists with
  | (_, Solutions.Exit code) => Solutions.Exit code
  | (_, Solutions.Proceed _) => snd (main_text (Pdf.extract_text streams))
  end.

End SolutionsMain.

(** ** Vocabulary of the statements *)



(** A cluster is never empty and its centre is the mean of its members. *)
Definition cluster_ok (c : Explain.cluster) : Prop :=
  Explain.items c <> []
  /\ (Explain.center c == Explain.mean_left (Explain.items c))%Q.


(** The order a sort on [key] produces. *)
Definition key_le {A : Type} (key : A -> Q) (a b : A) : Prop := (key a <= key b)%Q.

(** A string of white space only (the empty string too). *)
Fixpoint blank (s : string) : bool :=
  match s with
  | String c s' => Py.isspace c && blank s'
  | EmptyString => true
  end.

(** The story of a parsed answer is missing: no ["story"] key, or a string
    of white space only under it. *)
Definition story_blank (d : list (string * Explain.json)) : Prop :=
  match Explain.dict_get "story" d with
  | None => True
  | Some (Explain.JStr s) => blank s = true
  | Some _ => False
  end.

Definition is_text_request (r : Explain.request) : bool :=
  match r with Explain.TextRequest _ _ _ => true | _ => false end.

(** A world whose image answers carry a blank story. *)
Definition blank_story_world : Explain.world :=
  Explain.mkworld
    (fun _ => Explain.Ok (Explain.JObj [("hint"%string, Explain.JStr "Count.");
                                        ("story"%string, Explain.JStr "  ")]))
    (fun _ => "Wie viele?"%string)
    (fun _ => Explain.Ok (Explain.JObj [("hint"%string, Explain.JStr "Count.");
                                        ("story"%string, Explain.JStr "Two.")])).

(** The occurrences of [label] among the words of a page, in reading order. *)
Definition coords_of (label : string) (ws : list Labels.word) : list (Q * Q) :=
  map (fun w => (Labels.x1 w, Labels.y1 w))
      (List.filter (fun w => Labels.is_label w && String.eqb (Labels.cleaned w) label) ws).

Definition no_empty (occurrences : gmap string (list (Q * Q))) : Prop :=
  forall label, occurrences !! label <> Some [].

(** [a] is left of [b], or level with it and not below it. *)
Definition lex_le (a b : Q * Q) : Prop :=
  (fst a < fst b)%Q \/ ((fst a == fst b)%Q /\ (snd a <= snd b)%Q).

(** [str(page)] for the page at index [n] of the list, pages counting from 1. *)
Definition page_key (n : nat) : string := Py.str (Z.of_nat (S n)).

(** A text written from [raw] with any case and any white space between
    its characters. *)
Inductive spaced : Solutions.text -> Solutions.text -> Prop :=
| spaced_one c x : Solutions.ci_eq c x = true -> spaced [c] [x]
| spaced_more c x ws raw h :
    Solutions.ci_eq c x = true -> Forall (fun a => Py.isspace a = true) ws ->
    spaced raw h -> spaced (c :: raw) (x :: ws ++ h).

(** A header: "Klassenstufen", the two grades and "und" or "bis" between
    them, white space allowed everywhere between two characters. *)
Definition header_text (first second : string) (h : Solutions.text) : Prop :=
  exists a w1 b w2 c w3 d,
    h = a ++ w1 ++ b ++ w2 ++ c ++ w3 ++ d
    /\ spaced (Solutions.chars "Klassenstufen") a
    /\ Forall (fun x => Py.isspace x = true) w1
    /\ spaced (Solutions.chars first) b
    /\ Forall (fun x => Py.isspace x = true) w2
    /\ (spaced (Solutions.chars "und") c \/ spaced (Solutions.chars "bis") c)
    /\ Forall (fun x => Py.isspace x = true) w3
    /\ spaced (Solutions.chars second) d.

(** [k] accepts no text that starts with white space. *)
Definition rejects_space {R : Type} (k : Solutions.text -> option R) : Prop :=
  forall x s, Py.isspace x = true -> k (x :: s) = None.

(** [s] does not start with white space. *)
Definition starts_solid (s : Solutions.text) : Prop :=
  match s with
  | [] => True
  | x :: _ => Py.isspace x = false
  end.

Definition missing_start : string := "Could not find section for Klassenstufen 7 und 8".
Definition missing_end : string := "Could not find end section for Klassenstufen 9 und 10".


(** [P] holds of every two neighbours of a list. *)
Definition neighbours {A : Type} (P : A -> A -> Prop) (l : list A) : Prop :=
  forall i a b, l !! i = Some a -> l !! S i = Some b -> P a b.



(** A character [normalize_token] leaves alone: a digit, or a capital
    letter other than O. *)
Definition settled (c : ascii) : bool :=
  Py.is_digit c || (Py.is_upper c && negb (Ascii.eqb c "O")).

Fixpoint all_settled (s : string) : bool :=
  match s with
  | String c s' => settled c && all_settled s'
  | EmptyString => true
  end.

(** The keys of [positions] are distinct and all among the question ids. *)
Definition keys_ok (question_ids : list string) (positions : Explain.dict Box.t) : Prop :=
  NoDup (map fst positions)
  /\ forall k, In k (map fst positions) -> In k question_ids.

(** The bytes that end or nest a literal, or make the next byte literal. *)
Definition special (c : ascii) : bool :=
  Ascii.eqb c "(" || Ascii.eqb c ")" || Ascii.eqb c "\".

(** A literal's bytes with a backslash before every special one. *)
Fixpoint escape (s : list ascii) : list ascii :=
  match s with
  | [] => []
  | c :: s' => if special c then "\"%char :: c :: escape s' else c :: escape s'
  end.

(** The literal as a PDF content stream writes it. *)
Definition quote (s : list ascii) : list ascii := "("%char :: escape s ++ [")"%char].

(** Printable ASCII: the code points 32..126. *)
Definition printable (t : list ascii) : Prop :=
  Forall (fun c => Py.between 32 126 c = true) t.

(** No space is followed by a space. *)
Definition single_spaced (t : list ascii) : Prop :=
  forall i, t !! i = Some " "%char -> t !! S i <> Some " "%char.

(** What must match next fails wherever in [s] it is tried. *)
Definition dead {R : Type} (k : list ascii -> option R) (s : list ascii) : Prop :=
  forall t, suffix t s -> k t = None.

(** [x] is a binary64 number. *)
Definition is_float (x : Q) : Prop := (Float.round64 x == x)%Q.

(** A coordinate on a page: a binary64 number of size at most [2^52]. *)
Definition coordinate (x : Q) : Prop :=
  is_float x /\ (- inject_Z (2 ^ 52) <= x <= inject_Z (2 ^ 52))%Q.

(** Every label box has coordinates for its [left] and its [top]. *)
Definition placed (label_positions : Explain.dict Box.t) : Prop :=
  forall k b, In (k, b) label_positions ->
              coordinate (Box.left b) /\ coordinate (Box.top b).

(** What the label extractor prints for one entry of [PDFS]. *)
Definition note (path_exists : string -> bool) (pdf : string * string) : Labels.message :=
  if path_exists (snd pdf) then Labels.Wrote (fst pdf) else Labels.Skipping (snd pdf).

(** The entry does not end the run: its file is missing, or is read
    without an exception. *)
Definition passes (path_exists readable : string -> bool) (pdf : string * string) : Prop :=
  path_exists (snd pdf) = true -> readable (snd pdf) = true.

(** The characters kept from a word: the letters of ASCII and the digits. *)
Definition letters_and_digits : list ascii :=
  list_ascii_of_string "ABCDEFGHIJKLMNOPQRSTUVWXYZabcdefghijklmnopqrstuvwxyz0123456789".

(** The letters and digits of [s], in their order. *)
Definition alnum_part (s : string) : string :=
  string_of_list_ascii
    (List.filter (fun c => existsb (Ascii.eqb c) letters_and_digits)
                 (list_ascii_of_string s)).

(** The thirty question ids. *)
Definition valid_ids : list string :=
  ["A1"; "A2"; "A3"; "A4"; "A5"; "A6"; "A7"; "A8"; "A9"; "A10";
   "B1"; "B2"; "B3"; "B4"; "B5"; "B6"; "B7"; "B8"; "B9"; "B10";
   "C1"; "C2"; "C3"; "C4"; "C5"; "C6"; "C7"; "C8"; "C9"; "C10"]%string.

Definition valid_id (label : string) : Prop := In label valid_ids.

(** The parsed answer is an object whose ["story"] is a string with a
    character that is not white space. *)
Definition story_told (explanation : Explain.json) : Prop :=
  exists d s,
    explanation = Explain.JObj d
    /\ Explain.dict_get "story" d = Some (Explain.JStr s)
    /\ blank s = false.

(** The world answers the image request of a question with
    [explanation], at once or after one failure; [log1] is the record of
    calls after it. *)
Definition image_answered (w : Explain.world) (crop_path qid answer : string)
           (log : list Explain.request) (explanation : Explain.json)
           (log1 : list Explain.request) : Prop :=
  let asked := Explain.ImageRequest crop_path qid answer in
  (Explain.image_reply w log = Explain.Ok explanation /\ log1 = log ++ [asked])
  \/ (exists e, Explain.image_reply w log = Explain.Raised e
                /\ Explain.image_reply w (log ++ [asked]) = Explain.Ok explanation
                /\ log1 = log ++ [asked; asked]).

(** The kinds of calls, and how many of a kind a record holds. *)
Definition is_sips (c : Run.call) : bool :=
  match c with Run.Sips _ _ => true | _ => false end.
Definition is_image_post (c : Run.call) : bool :=
  match c with Run.ImagePost _ _ _ _ => true | _ => false end.
Definition is_tesseract (c : Run.call) : bool :=
  match c with Run.Tesseract _ => true | _ => false end.
Definition is_text_post (c : Run.call) : bool :=
  match c with Run.TextPost _ _ _ => true | _ => false end.

Definition count (kind : Run.call -> bool) (calls : list Run.call) : nat :=
  length (List.filter kind calls).

(** The calls of one question stay within its budget: one crop, four
    POSTs of the image, one OCR run, one POST of the text. *)
Definition within_budget (questions : nat) (calls : list Run.call) : Prop :=
  (count is_sips calls <= questions)%nat
  /\ (count is_image_post calls <= 4 * questions)%nat
  /\ (count is_tesseract calls <= questions)%nat
  /\ (count is_text_post calls <= questions)%nat.

(** * Properties *)

(** ** Python numbers: comparison, [max], [min], [int] *)

Lemma ltb_lt (a b : Q) : Py.ltb a b = true <-> (a < b)%Q.
Proof.
  unfold Py.ltb. rewrite negb_true_iff, <- not_true_iff_false, Qle_bool_iff.
  split; [apply Qnot_le_lt | apply Qlt_not_le].
Qed.

Lemma ltb_ge (a b : Q) : Py.ltb a b = false <-> (b <= a)%Q.
Proof.
  unfold Py.ltb. rewrite negb_false_iff. apply Qle_bool_iff.
Qed.



Lemma int_nonneg (q : Q) : (0 <= q)%Q -> 0 <= Py.int q.
Proof.
  intros H. unfold Py.int. apply Z.quot_pos; [| lia].
  unfold Qle in H. simpl in H. lia.
Qed.

Lemma int_le (q : Q) : (0 <= q)%Q -> (inject_Z (Py.int q) <= q)%Q.
Proof.
  intros H. unfold Py.int.
  rewrite Z.quot_div_nonneg; [| unfold Qle in H; simpl in H; lia | lia].
  destruct q as [n d]. apply (Qfloor_le (n # d)).
Qed.

Lemma int_gt (q : Q) : (0 <= q)%Q -> (q < inject_Z (Py.int q) + 1)%Q.
Proof.
  intros H. unfold Py.int.
  rewrite Z.quot_div_nonneg; [| unfold Qle in H; simpl in H; lia | lia].
  destruct q as [n d]. pose proof (Qlt_floor (n # d)) as L.
  unfold Qfloor in L. rewrite inject_Z_plus in L. exact L.
Qed.

(** ** Stable sorting *)

Section SortedFacts.
Context {A K : Type} (ltk : K -> K -> bool) (key : A -> K).

Lemma insert_by_perm (x : A) (l : list A) :
  Permutation (Py.insert_by ltk key x l) (x :: l).
Proof.
  induction l as [| y l IH]; simpl; [reflexivity |].
  destruct (ltk (key y) (key x)); [| reflexivity].
  rewrite IH. apply perm_swap.
Qed.

Lemma sorted_by_perm (l : list A) : Permutation (Py.sorted_by ltk key l) l.
Proof.
  induction l as [| x l IH]; simpl; [reflexivity |].
  rewrite insert_by_perm. now apply perm_skip.
Qed.
End SortedFacts.

(** ** Sums and means *)

Lemma sum_acc (l : list Q) (a : Q) :
  (fold_left Qplus l a == a + Py.sum l)%Q.
Proof.
  unfold Py.sum. revert a. induction l as [| x l IH]; intros a; simpl.
  - lra.
  - rewrite (IH (a + x)%Q), (IH (0 + x)%Q). lra.
Qed.

Lemma sum_cons (x : Q) (l : list Q) : (Py.sum (x :: l) == x + Py.sum l)%Q.
Proof. unfold Py.sum at 1. simpl. rewrite sum_acc. lra. Qed.




Lemma mean_left_one (p : Explain.pos) : (Explain.mean_left [p] == Explain.left p)%Q.
Proof.
  unfold Explain.mean_left. simpl. rewrite sum_cons. unfold Py.sum. simpl.
  field.
Qed.

(** ** Rounding to binary64 *)

Section RoundingFacts.
Import Float.

Lemma pow2_pos (k : Z) : (0 < pow2 k)%Q.
Proof. apply Qpower_0_lt. reflexivity. Qed.

Lemma pow2_add (a b : Z) : (pow2 (a + b) == pow2 a * pow2 b)%Q.
Proof. apply Qpower_plus. discriminate. Qed.

Lemma pow2_le (a b : Z) : a <= b -> (pow2 a <= pow2 b)%Q.
Proof. intros H. apply Qpower_le_compat_l; [exact H | discriminate]. Qed.

Lemma pow2_lt_inv (a b : Z) : (pow2 a < pow2 b)%Q -> a < b.
Proof. intros H. apply (Qpower_lt_compat_l_inv 2); [exact H | reflexivity]. Qed.

Lemma pow2_int (k : Z) : 0 <= k -> (pow2 k == inject_Z (2 ^ k))%Q.
Proof. intros H. symmetry. apply (Zpower_Qpower 2 k H). Qed.

Lemma rne_bounds (x : Q) : Qfloor x <= rne x <= Qfloor x + 1.
Proof.
  unfold rne. destruct (x - inject_Z (Qfloor x) ?= 1 # 2)%Q; [| lia | lia].
  destruct (Z.even (Qfloor x)); lia.
Qed.

Lemma rne_Z (n : Z) : rne (inject_Z n) = n.
Proof.
  unfold rne. rewrite Qfloor_Z.
  destruct (Qcompare_spec (inject_Z n - inject_Z n) (1 # 2)) as [H | H | H];
    [exfalso; lra | reflexivity | exfalso; lra].
Qed.

Lemma rne_mono (x y : Q) : (x <= y)%Q -> rne x <= rne y.
Proof.
  intros H. pose proof (Qfloor_resp_le x y H) as Hf.
  destruct (Z.eq_dec (Qfloor x) (Qfloor y)) as [E | Hne].
  - unfold rne. rewrite <- E.
    destruct (Qcompare_spec (x - inject_Z (Qfloor x)) (1 # 2)) as [Hx | Hx | Hx];
      destruct (Qcompare_spec (y - inject_Z (Qfloor x)) (1 # 2)) as [Hy | Hy | Hy];
      try lia; try (exfalso; lra); destruct (Z.even (Qfloor x)); lia.
  - pose proof (rne_bounds x). pose proof (rne_bounds y). lia.
Qed.

Lemma rne_comp (x y : Q) : (x == y)%Q -> rne x = rne y.
Proof.
  intros H. apply Z.le_antisymm; apply rne_mono; rewrite H; apply Qle_refl.
Qed.

Lemma mag_spec (q : Q) :
  (0 < q)%Q -> (pow2 (mag q) <= q)%Q /\ (q < pow2 (mag q + 1))%Q.
Proof.
  destruct q as [n d]. intros Hq.
  assert (Hn : 0 < n) by (unfold Qlt in Hq; simpl in Hq; lia).
  pose proof (Z.log2_spec n Hn) as [Hn1 Hn2].
  pose proof (Z.log2_spec (Z.pos d) (Pos2Z.is_pos d)) as [Hd1 Hd2].
  pose proof (Z.log2_nonneg n) as Hln. pose proof (Z.log2_nonneg (Z.pos d)) as Hld.
  set (ln := Z.log2 n) in *. set (ld := Z.log2 (Z.pos d)) in *.
  assert (HD : (0 < inject_Z (Z.pos d))%Q) by reflexivity.
  assert (A : forall e, e = ln - ld + 1 -> (n # d < pow2 e)%Q).
  { intros e ->. rewrite (Qmake_Qdiv n d). apply Qlt_shift_div_r; [exact HD |].
    apply (Qlt_le_trans _ (pow2 (ln - ld + 1) * pow2 ld)).
    - rewrite <- pow2_add. replace (ln - ld + 1 + ld) with (Z.succ ln) by lia.
      rewrite pow2_int by lia. now rewrite <- Zlt_Qlt.
    - apply Qmult_le_l; [apply pow2_pos |].
      rewrite pow2_int by lia. now rewrite <- Zle_Qle. }
  assert (B : forall e, e = ln - ld - 1 -> (pow2 e <= n # d)%Q).
  { intros e ->. rewrite (Qmake_Qdiv n d). apply Qle_shift_div_l; [exact HD |].
    apply (Qle_trans _ (pow2 (ln - ld - 1) * pow2 (ld + 1))).
    - apply Qmult_le_l; [apply pow2_pos |].
      rewrite pow2_int by lia. rewrite <- Zle_Qle. unfold Z.succ in Hd2. lia.
    - rewrite <- pow2_add. replace (ln - ld - 1 + (ld + 1)) with ln by lia.
      rewrite pow2_int by lia. now rewrite <- Zle_Qle. }
  unfold mag. cbn [Qnum Qden]. fold ln ld.
  destruct (Qle_bool (pow2 (ln - ld)) (n # d)) eqn:E.
  - apply Qle_bool_iff in E. split; [exact E | now apply A].
  - split; [now apply B |].
    replace (ln - ld - 1 + 1) with (ln - ld) by lia.
    apply Qnot_le_lt. intros H. apply Qle_bool_iff in H. congruence.
Qed.

Lemma mag_mono (q q' : Q) : (0 < q)%Q -> (q <= q')%Q -> mag q <= mag q'.
Proof.
  intros Hq H.
  destruct (mag_spec q Hq) as [Hl _].
  destruct (mag_spec q') as [_ Hu]; [lra |].
  assert (Hp : (pow2 (mag q) < pow2 (mag q' + 1))%Q) by lra.
  apply pow2_lt_inv in Hp. lia.
Qed.

Lemma grid_le (q : Q) (j k : Z) :
  (q <= inject_Z j * pow2 k)%Q ->
  (inject_Z (rne (q / pow2 k)) * pow2 k <= inject_Z j * pow2 k)%Q.
Proof.
  intros H. apply Qmult_le_compat_r; [| apply Qlt_le_weak, pow2_pos].
  rewrite <- Zle_Qle.
  apply (Z.le_trans _ (rne (inject_Z j))); [| rewrite rne_Z; lia]. apply rne_mono.
  apply Qle_shift_div_r; [apply pow2_pos | exact H].
Qed.

Lemma grid_ge (q : Q) (j k : Z) :
  (inject_Z j * pow2 k <= q)%Q ->
  (inject_Z j * pow2 k <= inject_Z (rne (q / pow2 k)) * pow2 k)%Q.
Proof.
  intros H. apply Qmult_le_compat_r; [| apply Qlt_le_weak, pow2_pos].
  rewrite <- Zle_Qle.
  apply (Z.le_trans _ (rne (inject_Z j))); [rewrite rne_Z; lia |]. apply rne_mono.
  apply Qle_shift_div_l; [apply pow2_pos | exact H].
Qed.

Lemma grid_exact (q : Q) (j k : Z) :
  (q == inject_Z j * pow2 k)%Q ->
  (inject_Z (rne (q / pow2 k)) * pow2 k == q)%Q.
Proof.
  intros H. apply Qle_antisym.
  - rewrite H at 2. apply grid_le. rewrite H. apply Qle_refl.
  - rewrite H at 1. apply grid_ge. rewrite H. apply Qle_refl.
Qed.

Lemma pow2_grid (e k : Z) : k <= e -> (pow2 e == inject_Z (2 ^ (e - k)) * pow2 k)%Q.
Proof.
  intros H. rewrite <- pow2_int by lia. rewrite <- pow2_add. now replace (e - k + k) with e by lia.
Qed.

Lemma round_pos_nonneg (q : Q) : (0 < q)%Q -> (0 <= round_pos q)%Q.
Proof.
  intros H. unfold round_pos.
  assert (Z0 : forall x, (inject_Z 0 * x == 0)%Q) by (intros x; ring).
  apply (Qle_trans _ (inject_Z 0 * pow2 (ulp_exp q))); [rewrite Z0; apply Qle_refl |].
  apply grid_ge. rewrite Z0. lra.
Qed.

Lemma round_pos_mono (q q' : Q) :
  (0 < q)%Q -> (q <= q')%Q -> (round_pos q <= round_pos q')%Q.
Proof.
  intros Hq H. assert (Hq' : (0 < q')%Q) by lra.
  pose proof (mag_mono q q' Hq H) as He.
  unfold round_pos.
  destruct (Z.eq_dec (ulp_exp q) (ulp_exp q')) as [E | Hne].
  - rewrite <- E. apply Qmult_le_compat_r; [| apply Qlt_le_weak, pow2_pos].
    rewrite <- Zle_Qle. apply rne_mono.
    apply Qmult_le_compat_r; [exact H |].
    apply Qlt_le_weak, Qinv_lt_0_compat, pow2_pos.
  - assert (Hk : ulp_exp q < ulp_exp q' /\ ulp_exp q' = mag q' - 52 /\ mag q < mag q').
    { unfold ulp_exp in *. lia. }
    destruct Hk as (Hk & Hk' & Hm).
    destruct (mag_spec q Hq) as [_ Hu]. destruct (mag_spec q' Hq') as [Hl _].
    assert (Hmid : (pow2 (mag q + 1) <= pow2 (mag q'))%Q) by (apply pow2_le; lia).
    apply (Qle_trans _ (pow2 (mag q'))).
    + rewrite (pow2_grid (mag q') (ulp_exp q)) by lia. apply grid_le.
      rewrite <- pow2_grid by lia. lra.
    + rewrite (pow2_grid (mag q') (ulp_exp q')) at 1 by lia. apply grid_ge.
      rewrite <- pow2_grid by lia. exact Hl.
Qed.

(** Rounding keeps the order. *)
Lemma round64_mono (q q' : Q) : (q <= q')%Q -> (round64 q <= round64 q')%Q.
Proof.
  intros H. unfold round64. rewrite !Qred_correct.
  destruct (Qcompare_spec q 0) as [E | Hneg | Hpos];
    destruct (Qcompare_spec q' 0) as [E' | Hneg' | Hpos'];
    try (exfalso; lra).
  - apply Qle_refl.
  - now apply round_pos_nonneg.
  - pose proof (round_pos_nonneg (- q)). lra.
  - assert ((round_pos (- q') <= round_pos (- q))%Q) by (apply round_pos_mono; lra). lra.
  - pose proof (round_pos_nonneg (- q)). pose proof (round_pos_nonneg q'). lra.
  - now apply round_pos_mono.
Qed.

Lemma round64_comp (q q' : Q) : (q == q')%Q -> (round64 q == round64 q')%Q.
Proof.
  intros H. apply Qle_antisym; apply round64_mono; rewrite H; apply Qle_refl.
Qed.

Lemma round_pos_Z (n : Z) : 0 < n <= 2 ^ 53 -> (round_pos (inject_Z n) == inject_Z n)%Q.
Proof.
  intros [Hn Hb]. unfold round_pos.
  assert (Hq : (0 < inject_Z n)%Q) by (change 0%Q with (inject_Z 0); now rewrite <- Zlt_Qlt).
  destruct (mag_spec (inject_Z n) Hq) as [Hl _].
  assert (Hm : mag (inject_Z n) <= 53).
  { assert (Hp : (pow2 (mag (inject_Z n)) < pow2 54)%Q).
    { apply (Qle_lt_trans _ (inject_Z n)); [exact Hl |].
      rewrite (pow2_int 54) by lia. rewrite <- Zlt_Qlt. lia. }
    apply pow2_lt_inv in Hp. lia. }
  set (k := ulp_exp (inject_Z n)).
  assert (Hk : k <= 0 \/ (k = 1 /\ mag (inject_Z n) = 53)) by (unfold k, ulp_exp; lia).
  destruct Hk as [Hk | [Hk Hm53]].
  - apply (grid_exact _ (n * 2 ^ (- k))).
    rewrite inject_Z_mult, <- pow2_int by lia. rewrite <- Qmult_assoc, <- pow2_add.
    replace (- k + k) with 0 by lia. unfold pow2. simpl. ring.
  - rewrite Hm53 in Hl. rewrite (pow2_int 53) in Hl by lia. rewrite <- Zle_Qle in Hl.
    assert (n = 2 ^ 53) by lia. subst n.
    apply (grid_exact _ (2 ^ 52)). rewrite Hk. reflexivity.
Qed.

(** Integers up to [2^53] in size are binary64 numbers. *)
Lemma round64_Z (n : Z) : - 2 ^ 53 <= n <= 2 ^ 53 -> (round64 (inject_Z n) == inject_Z n)%Q.
Proof.
  intros H. unfold round64. rewrite Qred_correct.
  destruct (Qcompare_spec (inject_Z n) 0) as [E | Hneg | Hpos].
  - now symmetry.
  - change 0%Q with (inject_Z 0) in Hneg. rewrite <- Zlt_Qlt in Hneg.
    change (- inject_Z n)%Q with (inject_Z (- n)).
    rewrite round_pos_Z by lia. rewrite inject_Z_opp. ring.
  - change 0%Q with (inject_Z 0) in Hpos. rewrite <- Zlt_Qlt in Hpos.
    apply round_pos_Z. lia.
Qed.

End RoundingFacts.

Section Crop64Facts.
Import Num Explain64.

(** ** The crop rectangle in binary64 *)

Lemma inject_Z_minus (a b : Z) : (inject_Z (a - b) == inject_Z a - inject_Z b)%Q.
Proof. unfold Z.sub. rewrite inject_Z_plus, inject_Z_opp. ring. Qed.

Lemma round64_le_Z (q : Q) (n : Z) :
  - 2 ^ 53 <= n <= 2 ^ 53 -> (q <= inject_Z n)%Q -> (Float.round64 q <= inject_Z n)%Q.
Proof.
  intros Hn H. rewrite <- (round64_Z n Hn). now apply round64_mono.
Qed.

Lemma round64_ge_Z (q : Q) (n : Z) :
  - 2 ^ 53 <= n <= 2 ^ 53 -> (inject_Z n <= q)%Q -> (inject_Z n <= Float.round64 q)%Q.
Proof.
  intros Hn H. rewrite <- (round64_Z n Hn). now apply round64_mono.
Qed.

Lemma dict_get_In {V : Type} (k : string) (v : V) (d : Explain.dict V) :
  Explain.dict_get k d = Some v -> In (k, v) d.
Proof.
  induction d as [| [k' v'] d IH]; simpl; [discriminate |].
  destruct (String.eqb_spec k' k) as [-> | _].
  - intros E; inversion E; subst. now left.
  - intros E. right. now apply IH.
Qed.

Lemma max_pick (a b : num) :
  (max a b = b /\ (val a < val b)%Q) \/ (max a b = a /\ (val b <= val a)%Q).
Proof.
  unfold max, ltb. destruct (Py.ltb (val a) (val b)) eqn:E.
  - left. split; [reflexivity | now apply ltb_lt].
  - right. split; [reflexivity | now apply ltb_ge].
Qed.

Lemma min_pick (a b : num) :
  (min a b = b /\ (val b < val a)%Q) \/ (min a b = a /\ (val a <= val b)%Q).
Proof.
  unfold min, ltb. destruct (Py.ltb (val b) (val a)) eqn:E.
  - left. split; [reflexivity | now apply ltb_lt].
  - right. split; [reflexivity | now apply ltb_ge].
Qed.

(** [top] is the [int] 0, or a positive float no greater than the
    label's own [top] rounded. *)
Lemma crop_top_cases (current : Box.t) :
  crop_top current = Int 0
  \/ exists x, crop_top current = Flt x /\ (0 < x)%Q
               /\ (Box.top current <= inject_Z (2 ^ 52) -> x <= inject_Z (2 ^ 52))%Q.
Proof.
  unfold crop_top, padding_top.
  destruct (max_pick (Int 0) (sub (Flt (Box.top current)) (Int 24))) as [[-> H] | [-> H]];
    [| now left].
  right. cbn [sub float val] in *. eexists. split; [reflexivity |]. split; [exact H |].
  intros Hc. apply round64_le_Z; [lia |].
  assert (H24 : (Float.round64 (inject_Z 24) == inject_Z 24)%Q) by (apply round64_Z; lia).
  rewrite H24. change (inject_Z 24) with 24%Q. lra.
Qed.

(** The height the page leaves below [top], against the integer bounds
    on either side. *)
Lemma room_below (image_h : Z) (current : Box.t) :
  0 <= image_h <= 2 ^ 52 ->
  (Box.top current <= inject_Z (2 ^ 52))%Q ->
  let top := crop_top current in
  0 <= int top
  /\ (inject_Z image_h - 1 <= inject_Z (int top) + val (sub (Int image_h) top))%Q
  /\ (inject_Z (int top) + val (sub (Int image_h) top) <= inject_Z image_h)%Q.
Proof.
  intros Hh Hc. cbv zeta.
  destruct (crop_top_cases current) as [-> | (x & -> & Hx & Hb)].
  - cbn [int sub val]. rewrite Z.sub_0_r. change (inject_Z 0) with 0%Q.
    split; [lia | split; lra].
  - specialize (Hb Hc). cbn [int sub val float].
    assert (Hx0 : (0 <= x)%Q) by lra.
    pose proof (int_nonneg x Hx0) as Hy0. pose proof (int_le x Hx0) as Hle.
    pose proof (int_gt x Hx0) as Hgt.
    set (y := Py.int x) in *.
    assert (Hy : y <= 2 ^ 52).
    { rewrite Zle_Qle. lra. }
    assert (Hr : (Float.round64 (inject_Z image_h) == inject_Z image_h)%Q)
      by (apply round64_Z; lia).
    assert (Hu : (Float.round64 (Float.round64 (inject_Z image_h) - x)
                  <= inject_Z (image_h - y))%Q).
    { apply round64_le_Z; [lia |]. rewrite Hr, inject_Z_minus. lra. }
    assert (Hl : (inject_Z (image_h - y - 1)
                  <= Float.round64 (Float.round64 (inject_Z image_h) - x))%Q).
    { apply round64_ge_Z; [lia |]. rewrite Hr, !inject_Z_minus.
      change (inject_Z 1) with 1%Q. lra. }
    rewrite !inject_Z_minus in Hl. rewrite inject_Z_minus in Hu.
    change (inject_Z 1) with 1%Q in Hl.
    split; [exact Hy0 | split; lra].
Qed.

(** C1, amended, in binary64.  For a page at most [2^52] high and label
    boxes whose coordinates are at most [2^52] in size: the rectangle
    never starts left of or above the page and ends within the page
    height; without a label it is the whole page; with one it is at
    least 140 wide and, unless it is exactly 140 wide, ends within the
    page width, and it is at least 200 high unless it reaches the last
    row of the page. *)
Theorem compute_crop_bounds (qid : string) (label_positions : Explain.dict Box.t)
        (image_w image_h : Z) :
  0 <= image_h <= 2 ^ 52 ->
  placed label_positions ->
  let '(x, y, width, height) := compute_crop qid label_positions image_w image_h in
  0 <= x /\ 0 <= y
  /\ (inject_Z y + val height <= inject_Z image_h)%Q
  /\ match Explain.dict_get qid label_positions with
     | None => x = 0 /\ y = 0 /\ width = image_w /\ height = Int image_h
     | Some _ =>
         140 <= width
         /\ (width = 140 \/ x + width <= image_w)
         /\ ((200 <= val height)%Q
             \/ (inject_Z image_h - 1 <= inject_Z y + val height)%Q)
     end.
Proof.
  intros Hh Hplaced. unfold compute_crop.
  destruct (Explain.dict_get qid label_positions) as [current |] eqn:Hget.
  2:{ cbn [val]. change (inject_Z 0) with 0%Q. repeat split; try lia. lra. }
  assert (Hc : (Box.top current <= inject_Z (2 ^ 52))%Q).
  { apply dict_get_In in Hget. apply Hplaced in Hget as [_ [_ [_ H]]]. exact H. }
  unfold crop_width, crop_right, crop_left, crop_height.
  set (L := int (sub (left_boundary label_positions current) padding_x)).
  set (R := int (add (right_boundary label_positions image_w current) padding_x)).
  set (b := crop_bottom qid label_positions image_h current).
  set (m := Z.max 200 (int (sub b (crop_top current)))).
  assert (Hm : (200 <= inject_Z m)%Q).
  { change 200%Q with (inject_Z 200). rewrite <- Zle_Qle. unfold m. lia. }
  clearbody L R b.
  destruct (room_below image_h current Hh Hc) as (Hy & Hlow & Hup).
  split; [lia |]. split; [exact Hy |].
  destruct (min_pick (sub (Int image_h) (crop_top current)) (Int m)) as [[-> H] | [-> H]];
    cbn [val] in *.
  - split; [lra |]. split; [lia |]. split; [lia |]. left. exact Hm.
  - split; [exact Hup |]. split; [lia |]. split; [lia |]. right. exact Hlow.
Qed.

(** A label a hair above 25 on a page 150 high: the rectangle is 149
    high and reaches row 149, the last of the page. *)
Lemma compute_crop_bounds_witness :
  let label_positions := [("A1"%string, Box.mk 100 (25 - (1 # 2 ^ 48)) 120 40)] in
  compute_crop "A1" label_positions 1000 150 = (0, 0, 1000, Flt 149)
  /\ (inject_Z 0 + val (Flt 149) <= inject_Z 150)%Q
  /\ ((200 <= val (Flt 149))%Q \/ (inject_Z 150 - 1 <= inject_Z 0 + val (Flt 149))%Q).
Proof.
  cbv zeta.
  assert (E : compute_crop "A1" [("A1"%string, Box.mk 100 (25 - (1 # 2 ^ 48)) 120 40)]
                1000 150 = (0, 0, 1000, Flt 149)) by (vm_compute; reflexivity).
  split; [exact E |].
  assert (Hh : 0 <= 150 <= 2 ^ 52) by (split; [lia | vm_compute; discriminate]).
  assert (Hp : placed [("A1"%string, Box.mk 100 (25 - (1 # 2 ^ 48)) 120 40)]).
  { intros k b [E' | []]. inversion E'; subst.
    repeat split; vm_compute; first [reflexivity | discriminate]. }
  generalize (compute_crop_bounds "A1"
                [("A1"%string, Box.mk 100 (25 - (1 # 2 ^ 48)) 120 40)] 1000 150 Hh Hp).
  rewrite E.
  change (Explain.dict_get "A1" [("A1"%string, Box.mk 100 (25 - (1 # 2 ^ 48)) 120 40)])
    with (Some (Box.mk 100 (25 - (1 # 2 ^ 48)) 120 40)).
  intros (_ & _ & H1 & _ & _ & H2). split; [exact H1 | exact H2].
Defined.

(** C1, as stated: on a page of 1000 by 1000 with one label, A1, at top
    900, the crop starts at 876 and is cut at the lower edge of the page:
    it is 124 high, below the floor of 200. *)
Lemma compute_crop_floor_counterexample :
  compute_crop "A1" [("A1"%string, Box.mk 100 900 120 910)] 1000 1000
  = (0, 876, 1000, Flt 124)
  /\ ~ (let '(x, y, width, height) :=
          compute_crop "A1" [("A1"%string, Box.mk 100 900 120 910)] 1000 1000 in
        0 <= x /\ 0 <= y
        /\ x + width <= 1000 /\ (inject_Z y + val height <= 1000)%Q
        /\ 140 <= width /\ (200 <= val height)%Q).
Proof.
  assert (E : compute_crop "A1" [("A1"%string, Box.mk 100 900 120 910)] 1000 1000
              = (0, 876, 1000, Flt 124)) by (vm_compute; reflexivity).
  split; [exact E |]. rewrite E. intros (_ & _ & _ & _ & _ & H).
  revert H. vm_compute. intros H. apply H. reflexivity.
Qed.

(** Rounding at work: with the label a hair above 25 on a page 150
    high, the interpreter rounds [150 - top] to 149, where exact
    arithmetic leaves a little more. *)
Example compute_crop_rounded :
  let label_positions := [("A1"%string, Box.mk 100 (25 - (1 # 2 ^ 48)) 120 40)] in
  compute_crop "A1" label_positions 1000 150 = (0, 0, 1000, Flt 149)
  /\ (snd (Explain.compute_crop "A1" label_positions 1000 150) == 149 + (1 # 2 ^ 48))%Q.
Proof. cbv zeta. split; vm_compute; reflexivity. Qed.
(** Beyond the range: a label near [2^53] on a page one pixel high gets
    a rectangle that ends two pixels down, below the page. *)
Example compute_crop_beyond_range :
  let label_positions := [("A1"%string, Box.mk 100 (inject_Z (2 ^ 53 + 26)) 120 40)] in
  compute_crop "A1" label_positions 1000 1
  = (0, 2 ^ 53 + 2, 1000, Flt (inject_Z (- 2 ^ 53)))
  /\ ~ (inject_Z (2 ^ 53 + 2) + val (Flt (inject_Z (- 2 ^ 53))) <= inject_Z 1)%Q.
Proof. cbv zeta. split; [vm_compute; reflexivity | vm_compute; intros H; now apply H]. Qed.
End Crop64Facts.

Section CropFacts.
Import Explain.

(** ** The crop rectangle *)


Example crop_small_page :
  compute_crop "A1" [] 100 100 = (0, 0, 100, 100%Q).
Proof. reflexivity. Qed.

Example crop_near_page_bottom :
  compute_crop "A1" [("A1"%string, Box.mk 100 900 120 910)] 1000 1000
  = (0, 876, 1000, 124%Q).
Proof. vm_compute. reflexivity. Qed.

(** Without a label the crop is the whole page, however small: here 100
    wide, below the floor of 140. *)
Example compute_crop_small_page_width :
  ~ (let '(x, y, width, height) := compute_crop "A1" [] 100 100 in 140 <= width).
Proof. rewrite crop_small_page. lia. Qed.

(** ** Column clustering *)


Lemma cluster_step_snoc (st : list cluster) (c : cluster) (p : pos) :
  cluster_step (st ++ [c]) p =
  if Py.ltb tolerance (Py.abs (left p - center c))
  then st ++ [c; mkcluster (left p) [p]]
  else st ++ [mkcluster (mean_left (items c ++ [p])) (items c ++ [p])].
Proof.
  unfold cluster_step. rewrite last_snoc, removelast_last.
  destruct (Py.ltb _ _); [| reflexivity].
  now rewrite <- app_assoc.
Qed.

(** The clusters cut the list they were built from into consecutive runs. *)
Lemma cluster_step_concat (st : list cluster) (p : pos) :
  concat (map items (cluster_step st p)) = concat (map items st) ++ [p].
Proof.
  destruct st as [| c0 st0] using rev_ind.
  - reflexivity.
  - rewrite cluster_step_snoc. destruct (Py.ltb _ _).
    + rewrite !map_app, !concat_app. simpl. now rewrite !app_nil_r, <- app_assoc.
    + rewrite !map_app, !concat_app. simpl. now rewrite !app_nil_r, <- app_assoc.
Qed.

Lemma cluster_fold_concat (l : list pos) (st : list cluster) :
  concat (map items (fold_left cluster_step l st)) = concat (map items st) ++ l.
Proof.
  revert st. induction l as [| p l IH]; intros st; simpl.
  - now rewrite app_nil_r.
  - rewrite IH, cluster_step_concat, <- app_assoc. reflexivity.
Qed.

Lemma cluster_columns_concat (positions : list pos) :
  concat (map items (cluster_columns positions)) = Py.sorted left positions.
Proof. unfold cluster_columns. now rewrite cluster_fold_concat. Qed.









Lemma cluster_step_ok st p : Forall cluster_ok st -> Forall cluster_ok (cluster_step st p).
Proof.
  destruct st as [| c st0 _] using rev_ind; intros H.
  - constructor; [| constructor].
    split; simpl; [discriminate | symmetry; apply mean_left_one].
  - rewrite cluster_step_snoc. apply Forall_app in H as [H0 Hc].
    destruct (Py.ltb _ _); apply Forall_app; split; try assumption.
    + inversion Hc; subst. constructor; [assumption |].
      constructor; [| constructor].
      split; simpl; [discriminate | symmetry; apply mean_left_one].
    + constructor; [| constructor].
      split; simpl; [| reflexivity].
      destruct (items c); discriminate.
Qed.

Lemma cluster_fold_ok l st :
  Forall cluster_ok st -> Forall cluster_ok (fold_left cluster_step l st).
Proof.
  revert st. induction l as [| p l IH]; intros st H; simpl; [exact H |].
  apply IH. now apply cluster_step_ok.
Qed.












Example cluster_columns_two_columns :
  map (fun c => map id (items c))
      (cluster_columns [mkpos "B1" 700 100; mkpos "A2" 100 300; mkpos "A1" 100 100])
  = [["A2"; "A1"]; ["B1"]]%string.
Proof. vm_compute. reflexivity. Qed.

(** The clusters are consecutive runs of the positions sorted by [left]. *)
Theorem cluster_columns_partition (positions : list pos) :
  concat (map items (cluster_columns positions)) = Py.sorted left positions.
Proof. exact (cluster_columns_concat positions). Qed.

(** ** Order of a sorted column *)

Section SortedOrder.
Context {A : Type} (key : A -> Q).

Lemma insert_by_sorted (x : A) (l : list A) :
  StronglySorted (key_le key) l -> StronglySorted (key_le key) (Py.insert_by Py.ltb key x l).
Proof.
  induction 1 as [| y l Hl IH Hy]; cbn [Py.insert_by].
  - repeat constructor.
  - destruct (Py.ltb (key y) (key x)) eqn:E.
    + constructor; [exact IH |].
      eapply Permutation_Forall; [symmetry; apply insert_by_perm |].
      constructor; [| exact Hy]. apply ltb_lt in E. unfold key_le. lra.
    + apply ltb_ge in E. constructor; [now constructor |].
      constructor; [exact E |].
      eapply Forall_impl; [exact Hy |].
      unfold key_le. intros a Ha. lra.
Qed.

Lemma sorted_is_sorted (l : list A) : StronglySorted (key_le key) (Py.sorted key l).
Proof.
  unfold Py.sorted. induction l as [| x l IH]; cbn [Py.sorted_by].
  - constructor.
  - now apply insert_by_sorted.
Qed.

Lemma sorted_drop (n : nat) (l : list A) :
  StronglySorted (key_le key) l -> StronglySorted (key_le key) (drop n l).
Proof.
  intros H. revert n. induction H as [| y l Hl IH Hy]; intros [| n]; simpl;
    try constructor; auto.
Qed.

Lemma sorted_lookup_le (l : list A) (i j : nat) (a b : A) :
  StronglySorted (key_le key) l -> (i <= j)%nat ->
  l !! i = Some a -> l !! j = Some b -> (key a <= key b)%Q.
Proof.
  intros H. revert i j. induction H as [| y l Hl IH Hy]; intros i j Hij Ha Hb.
  - discriminate.
  - destruct i as [| i], j as [| j]; simpl in *; try lia.
    + inversion Ha; inversion Hb; subst. lra.
    + inversion Ha; subst. rewrite Forall_forall in Hy.
      apply Hy. eapply list_elem_of_lookup_2. exact Hb.
    + apply (IH i j); [lia | assumption | assumption].
Qed.

Lemma find_sorted_least (P : A -> bool) (l : list A) (x y : A) :
  StronglySorted (key_le key) l -> List.find P l = Some x ->
  In y l -> P y = true -> (key x <= key y)%Q.
Proof.
  induction 1 as [| a l Hl IH Ha]; simpl; intros Hf Hy HP; [contradiction |].
  destruct (P a) eqn:E.
  - inversion Hf; subst. destruct Hy as [-> | Hy]; [lra |].
    rewrite Forall_forall in Ha. now apply Ha, list_elem_of_In.
  - destruct Hy as [-> | Hy]; [congruence |]. now apply IH.
Qed.
End SortedOrder.

(** ** The column of the target and the item below it *)

Lemma dict_get_unique {V} (k : string) (v : V) (d : dict V) :
  NoDup (map fst d) -> In (k, v) d -> dict_get k d = Some v.
Proof.
  induction d as [| [k' v'] d IH]; simpl; intros Hnd Hin; [contradiction |].
  apply NoDup_cons in Hnd as [Hk Hnd].
  destruct Hin as [E | Hin].
  - inversion E; subst. now rewrite String.eqb_refl.
  - destruct (String.eqb_spec k' k) as [-> | _].
    + exfalso. apply Hk. apply list_elem_of_In.
      change k with (fst (k, v)). now apply in_map.
    + now apply IH.
Qed.

Lemma positions_of_label (label_positions : dict Box.t) (p : pos) (b : Box.t) :
  NoDup (map fst label_positions) ->
  In p (positions label_positions) ->
  dict_get (id p) label_positions = Some b ->
  left p = Box.left b /\ top p = Box.top b.
Proof.
  intros Hnd Hin Hget. unfold positions in Hin.
  apply in_map_iff in Hin as ([k b'] & <- & Hin). simpl in *.
  rewrite (dict_get_unique k b' _ Hnd Hin) in Hget. inversion Hget. now subst.
Qed.

Lemma cluster_items_in (l : list pos) (c : cluster) (i : nat) (p : pos) :
  cluster_columns l !! i = Some c -> In p (items c) -> In p l.
Proof.
  intros Hc Hp.
  apply (Permutation_in p (sorted_by_perm Py.ltb left l)).
  fold (Py.sorted left l). rewrite <- cluster_columns_concat.
  apply in_concat. exists (items c). split; [| exact Hp].
  apply in_map. apply list_elem_of_In. eapply list_elem_of_lookup_2. exact Hc.
Qed.

Lemma column_items_in (label_positions : dict Box.t) (current : Box.t) (p : pos) :
  In p (column_items label_positions current) -> In p (positions label_positions).
Proof.
  unfold column_items. intros H.
  apply (Permutation_in p (sorted_by_perm Py.ltb top _)) in H.
  destruct (centers label_positions); [exact H |].
  unfold clusters in H.
  destruct (cluster_columns (positions label_positions) !! _) as [c |] eqn:E;
    [| contradiction].
  eapply cluster_items_in; eassumption.
Qed.

Lemma index_of_id_lookup (qid : string) (column : list pos) (i : nat) :
  index_of_id qid column = Some i ->
  exists item, column !! i = Some item /\ id item = qid.
Proof.
  revert i. induction column as [| item column IH]; simpl; intros i H; [discriminate |].
  destruct (String.eqb_spec (id item) qid) as [E | _].
  - inversion H; subst. now exists item.
  - destruct (index_of_id qid column) as [j |]; [| discriminate].
    inversion H; subst. simpl. now apply IH.
Qed.

Example crop_bottom_with_next_item :
  let label_positions :=
    [("A1"%string, Box.mk 100 100 120 110); ("A2"%string, Box.mk 100 150 120 160)] in
  let current := Box.mk 100 100 120 110 in
  next_item "A1" label_positions current = Some (mkpos "A2" 100 150)
  /\ crop_bottom "A1" label_positions 1000 current = 216%Q.
Proof. vm_compute. split; reflexivity. Qed.

(** ** A column of one item *)

Example crop_bottom_single_item :
  let label_positions := [("A1"%string, Box.mk 100 900 120 910)] in
  let current := Box.mk 100 900 120 910 in
  column_items label_positions current = [mkpos "A1" 100 900]
  /\ (estimated "A1" label_positions 1000 current == 250)%Q
  /\ crop_bottom "A1" label_positions 1000 current = 1000%Q.
Proof. cbv zeta. split; [| split]; vm_compute; reflexivity. Qed.




(** ** Labels found by the explanation generator *)

(** C9.  On a page scaled by 2, a second occurrence of A1 further to the
    right (150 against 100) replaces the first: the unscaled [left] of the
    new word is compared with the scaled [left] stored before, 150 < 200.
    The box kept is the right-most one, not the left-most. *)
Lemma generator_keeps_right_occurrence :
  extract_label_positions ["A1"%string] 2 2
    [mkword 100 100 120 110 "A1"; mkword 150 200 170 210 "A1"]
  = [("A1"%string, Box.mk 300 400 340 420)].
Proof. vm_compute. reflexivity. Qed.

(** Without scaling, of two occurrences level on the left the one met
    first is kept, here the lower one. *)
Example generator_keeps_first_of_tied :
  extract_label_positions ["A1"%string] 1 1
    [mkword 100 200 120 210 "A1"; mkword 100 100 120 110 "A1"]
  = [("A1"%string, Box.mk 100 200 120 210)].
Proof. vm_compute. reflexivity. Qed.

End CropFacts.

Section NextItemFacts.
Import Num Explain64.

(** ** The item below the label, in binary64 *)

Lemma cluster_step64_concat (st : list Explain.cluster) (p : Explain.pos) :
  concat (map Explain.items (cluster_step st p)) = concat (map Explain.items st) ++ [p].
Proof.
  destruct st as [| c0 st0 _] using rev_ind; [reflexivity |].
  unfold cluster_step. rewrite last_snoc, removelast_last.
  destruct (ltb _ _); rewrite !List.map_app, !concat_app; simpl;
    now rewrite !app_nil_r, <- ?app_assoc.
Qed.

Lemma cluster_columns64_concat (positions : list Explain.pos) :
  concat (map Explain.items (cluster_columns positions)) = Py.sorted Explain.left positions.
Proof.
  unfold cluster_columns.
  assert (H : forall l st, concat (map Explain.items (fold_left cluster_step l st))
                           = concat (map Explain.items st) ++ l).
  { induction l as [| p l IH]; intros st; simpl; [now rewrite app_nil_r |].
    now rewrite IH, cluster_step64_concat, <- app_assoc. }
  now rewrite H.
Qed.

Lemma column_items64_in (label_positions : Explain.dict Box.t) (current : Box.t)
      (p : Explain.pos) :
  In p (column_items label_positions current) -> In p (Explain.positions label_positions).
Proof.
  unfold column_items. intros H.
  apply (Permutation_in p (sorted_by_perm Py.ltb Explain.top _)) in H.
  destruct (centers label_positions); [exact H |].
  destruct (clusters label_positions !! _) as [c |] eqn:E; [| contradiction].
  apply (Permutation_in p (sorted_by_perm Py.ltb Explain.left _)).
  fold (Py.sorted Explain.left (Explain.positions label_positions)).
  rewrite <- cluster_columns64_concat. apply in_concat. exists (Explain.items c).
  split; [| exact H]. apply in_map, list_elem_of_In.
  eapply list_elem_of_lookup_2. exact E.
Qed.

Lemma index_of_id_found (qid : string) (column : list Explain.pos) (item : Explain.pos) :
  In item column -> Explain.id item = qid ->
  exists i, Explain.index_of_id qid column = Some i.
Proof.
  induction column as [| x column IH]; simpl; [contradiction |].
  intros Hin Hid. destruct (String.eqb_spec (Explain.id x) qid) as [_ | Hne]; [now exists O |].
  destruct Hin as [-> | Hin]; [contradiction |].
  destruct (IH Hin Hid) as [i ->]. now exists (S i).
Qed.

Lemma val_max_second (a b b' : num) :
  (val b == val b')%Q -> (val (max a b) == val (max a b'))%Q.
Proof.
  intros H. destruct (max_pick a b) as [[-> ?] | [-> ?]];
    destruct (max_pick a b') as [[-> ?] | [-> ?]]; lra.
Qed.

(** Adding 4 to a float does not make it smaller. *)
Lemma below_margin (x : Q) : is_float x -> (x <= val (add (Flt x) (Int 4)))%Q.
Proof.
  intros Hx. unfold is_float in Hx. cbn [add float val].
  apply (Qle_trans _ (Float.round64 x)); [rewrite Hx; apply Qle_refl |].
  apply round64_mono.
  assert (H4 : (Float.round64 (inject_Z 4) == inject_Z 4)%Q) by (apply round64_Z; lia).
  rewrite H4. change (inject_Z 4) with 4%Q. lra.
Qed.

(** C2, amended.  When the label of the question is itself among the
    items of the column chosen for it, and that column holds an item
    whose [top] is greater than the label's [top + 4], the lower edge is
    [max(top + 140, t - 16)], where [top = max(0, label top - 24)] is the
    upper edge of the crop and [t] the least [top] among those items;
    every sum and difference is the rounded one of the interpreter, and
    the coordinates of the labels are binary64 numbers. *)
Theorem crop_bottom_next_item (qid : string) (label_positions : Explain.dict Box.t)
        (image_h : Z) (current : Box.t) (nxt : Explain.pos) :
  NoDup (map fst label_positions) ->
  Explain.dict_get qid label_positions = Some current ->
  placed label_positions ->
  (exists item, In item (column_items label_positions current) /\ Explain.id item = qid) ->
  In nxt (column_items label_positions current) ->
  (val (add (Flt (Box.top current)) (Int 4)) < Explain.top nxt)%Q ->
  (forall item, In item (column_items label_positions current) ->
                (val (add (Flt (Box.top current)) (Int 4)) < Explain.top item)%Q ->
                (Explain.top nxt <= Explain.top item)%Q) ->
  (val (crop_bottom qid label_positions image_h current)
   == val (max (add (max (Int 0) (sub (Flt (Box.top current)) (Int 24))) (Int 140))
               (sub (Flt (Explain.top nxt)) (Int 16))))%Q.
Proof.
  intros Hnd Hget Hplaced (own & Hown & Hid) Hin Hbelow Hleast.
  assert (Hfloat : is_float (Box.top current)).
  { apply dict_get_In in Hget. apply Hplaced in Hget as [_ [H _]]. exact H. }
  set (column := column_items label_positions current) in *.
  set (below := fun item : Explain.pos =>
                  ltb (add (Flt (Box.top current)) (Int 4)) (Flt (Explain.top item))).
  assert (Hb : forall item, below item = true
                            <-> (val (add (Flt (Box.top current)) (Int 4))
                                 < Explain.top item)%Q).
  { intros item. unfold below, ltb. apply ltb_lt. }
  destruct (index_of_id_found qid column own Hown Hid) as [i Hi].
  destruct (index_of_id_lookup _ _ _ Hi) as (cur_item & Hcur & Hcid).
  assert (Htop : Explain.top cur_item = Box.top current).
  { apply (positions_of_label label_positions cur_item current Hnd).
    - apply (column_items64_in label_positions current).
      apply list_elem_of_In. eapply list_elem_of_lookup_2. exact Hcur.
    - now rewrite Hcid. }
  assert (Hsorted : StronglySorted (key_le Explain.top) column) by apply sorted_is_sorted.
  pose proof (below_margin _ Hfloat) as Hmargin.
  pose proof Hin as Hin'. apply list_elem_of_In, list_elem_of_lookup in Hin' as [j Hj].
  assert (Hij : (i < j)%nat).
  { destruct (Nat.lt_ge_cases i j) as [H | H]; [exact H |]. exfalso.
    pose proof (sorted_lookup_le Explain.top _ j i nxt cur_item Hsorted H Hj Hcur) as Hle.
    rewrite Htop in Hle.
    apply (Qlt_irrefl (Explain.top nxt)).
    apply (Qle_lt_trans _ _ _ Hle). apply (Qle_lt_trans _ _ _ Hmargin Hbelow). }
  assert (Hd : In nxt (drop (S i) column)).
  { apply list_elem_of_In, list_elem_of_lookup. exists (j - S i)%nat.
    rewrite lookup_drop, <- Hj. f_equal. lia. }
  unfold crop_bottom, next_item, current_index. fold column. rewrite Hi. fold below.
  destruct (List.find below (drop (S i) column)) as [found |] eqn:F.
  - apply val_max_second. cbn [sub float val]. apply round64_comp.
    assert (Hle : (Explain.top found <= Explain.top nxt)%Q).
    { apply (find_sorted_least Explain.top below (drop (S i) column) found nxt);
        [now apply sorted_drop | exact F | exact Hd | now apply Hb]. }
    assert (Hge : (Explain.top nxt <= Explain.top found)%Q).
    { destruct (find_some _ _ F) as [Hfin Hfb]. apply Hleast; [| now apply Hb].
      apply list_elem_of_In. apply (subseteq_drop (S i) column), list_elem_of_In.
      exact Hfin. }
    assert (Heq : (Explain.top found == Explain.top nxt)%Q) by now apply Qle_antisym.
    rewrite Heq. reflexivity.
  - exfalso. pose proof (find_none _ _ F nxt Hd) as Hn.
    apply Hb in Hbelow. congruence.
Qed.

Lemma crop_bottom_next_item_witness :
  let label_positions :=
    [("A1"%string, Box.mk 100 100 120 110); ("A2"%string, Box.mk 100 150 120 160);
     ("A3"%string, Box.mk 104 400 124 410); ("B1"%string, Box.mk 700 120 720 130)] in
  (val (crop_bottom "A1" label_positions 1000 (Box.mk 100 100 120 110)) == 216)%Q.
Proof.
  cbv zeta.
  assert (E : (val (max (add (max (Int 0) (sub (Flt 100) (Int 24))) (Int 140))
                        (sub (Flt 150) (Int 16))) == 216)%Q) by (vm_compute; reflexivity).
  rewrite <- E.
  apply (crop_bottom_next_item "A1" _ 1000 (Box.mk 100 100 120 110)
           (Explain.mkpos "A2" 100 150)).
  - apply (bool_decide_unpack _). vm_compute. reflexivity.
  - reflexivity.
  - intros k b Hkb. simpl in Hkb.
    destruct Hkb as [E' | [E' | [E' | [E' | []]]]]; inversion E'; subst;
      repeat split; vm_compute; first [reflexivity | discriminate].
  - exists (Explain.mkpos "A1" 100 100). split; [vm_compute; tauto | reflexivity].
  - vm_compute. tauto.
  - vm_compute. reflexivity.
  - intros item Hitem. vm_compute in Hitem.
    destruct Hitem as [<- | [<- | [<- | []]]]; intros Hb; vm_compute in Hb; vm_compute;
      first [discriminate Hb | intros H'; discriminate H'].
Defined.

(** C2, as stated: the lower edge would be [max(label top + 140, next top - 16)];
    with the label at 100 and the next one at 150 that is 240, the code gives 216. *)
Lemma crop_bottom_next_item_counterexample :
  let label_positions :=
    [("A1"%string, Box.mk 100 100 120 110); ("A2"%string, Box.mk 100 150 120 160)] in
  let current := Box.mk 100 100 120 110 in
  Explain.dict_get "A1" label_positions = Some current
  /\ next_item "A1" label_positions current = Some (Explain.mkpos "A2" 100 150)
  /\ crop_bottom "A1" label_positions 1000 current = Flt 216
  /\ ~ (val (crop_bottom "A1" label_positions 1000 current)
        == val (max (add (Flt (Box.top current)) (Int 140)) (sub (Flt 150) (Int 16))))%Q.
Proof.
  cbv zeta. split; [reflexivity |]. split; [vm_compute; reflexivity |].
  split; [vm_compute; reflexivity |]. vm_compute. discriminate.
Qed.

(** The label need not be in the column chosen for it: three labels at
    the left edge pull the centre of their cluster to 22, so that A4 at
    88 is nearer to the column of B1.  B1 is more than 4 below A4, but
    A4 is not found in that column, no next item is used and the lower
    edge comes from the estimate. *)
Example crop_bottom_foreign_column :
  let label_positions :=
    [("A1"%string, Box.mk 0 0 20 10); ("A2"%string, Box.mk 0 100 20 110);
     ("A3"%string, Box.mk 0 200 20 210); ("A4"%string, Box.mk 88 300 108 310);
     ("B1"%string, Box.mk 120 350 140 360)] in
  let current := Box.mk 88 300 108 310 in
  column_items label_positions current = [Explain.mkpos "B1" 120 350]
  /\ (val (add (Flt (Box.top current)) (Int 4)) < 350)%Q
  /\ next_item "A4" label_positions current = None
  /\ crop_bottom "A4" label_positions 1000 current = Flt (1275 # 2).
Proof. cbv zeta. repeat split; vm_compute; reflexivity. Qed.
End NextItemFacts.

Section RequestFacts.
Import Explain.

(** ** The fallback request *)

Lemma lstrip_blank (s : string) : blank s = true -> Py.lstrip s = EmptyString.
Proof.
  induction s as [| c s IH]; simpl; [reflexivity |].
  intros H. apply andb_true_iff in H as [-> H]. now apply IH.
Qed.

Lemma lstrip_head (s : string) :
  match Py.lstrip s with
  | String c _ => Py.isspace c = false
  | EmptyString => blank s = true
  end.
Proof.
  induction s as [| c s IH]; simpl; [reflexivity |].
  destruct (Py.isspace c) eqn:E; simpl; [| exact E].
  destruct (Py.lstrip s); [exact IH | exact IH].
Qed.

Lemma rstrip_empty (s : string) : Py.rstrip s = EmptyString -> blank s = true.
Proof.
  induction s as [| c s IH]; simpl; [reflexivity |].
  destruct (Py.rstrip s); [| discriminate].
  destruct (Py.isspace c); [| discriminate]. intros _. now apply IH.
Qed.

Lemma strip_blank (s : string) :
  Py.nonempty (Py.strip s) = false <-> blank s = true.
Proof.
  unfold Py.strip. split.
  - intros H. pose proof (lstrip_head s) as Hh.
    destruct (Py.lstrip s) as [| c t] eqn:E; [exact Hh |].
    destruct (Py.rstrip (String c t)) eqn:Er; [| discriminate].
    apply rstrip_empty in Er. simpl in Er. rewrite Hh in Er. discriminate.
  - intros H. now rewrite lstrip_blank.
Qed.

Lemma story_missing_blank (d : list (string * json)) :
  story_blank d -> story_missing (JObj d) = ret true.
Proof.
  unfold story_blank, story_missing.
  destruct (dict_get "story" d) as [[| | | s | |] |]; try contradiction; [| reflexivity].
  intros H. apply strip_blank in H. now rewrite H.
Qed.

(** C8. When the image request (the first one or, after an exception, its
    one repetition) returns a parsed object whose story is missing, the
    run of the question makes one OCR call on the same crop and after it
    exactly one text request, carrying the OCR output; its answer is what
    is stored under the question id, and if it raises nothing is stored. *)
Theorem empty_story_one_follow_up (w : world) (crop_path qid answer : string)
        (explanations : dict json) (log log1 : list request)
        (d : list (string * json)) :
  try_except (openai_explain_question w crop_path qid answer)
             (openai_explain_question w crop_path qid answer) log
  = (Ok (JObj d), log1) ->
  story_blank d ->
  let ocr_text := ocr_stdout w log1 in
  let issued := [OcrRun crop_path; TextRequest ocr_text qid answer] in
  explain_qid w crop_path qid answer explanations log
  = (match text_reply w (log1 ++ [OcrRun crop_path]) with
     | Ok explanation => Ok (dict_set qid explanation explanations)
     | Raised e => Raised e
     end, log1 ++ issued)
  /\ (log1 = log ++ [ImageRequest crop_path qid answer]
      \/ log1 = log ++ [ImageRequest crop_path qid answer;
                        ImageRequest crop_path qid answer])
  /\ List.filter is_text_request (drop (length log) (log1 ++ issued))
     = [TextRequest ocr_text qid answer].
Proof.
  intros Himg Hblank ocr_text issued. split; [| split].
  - unfold explain_qid, bind. rewrite Himg.
    rewrite (story_missing_blank d Hblank). unfold ret.
    unfold tesseract, openai_explain_from_text. fold ocr_text.
    rewrite <- app_assoc. simpl.
    destruct (text_reply w (log1 ++ [OcrRun crop_path])); reflexivity.
  - unfold try_except, openai_explain_question in Himg.
    destruct (image_reply w log) as [e |].
    + inversion Himg; subst. now left.
    + inversion Himg; subst. rewrite <- app_assoc. now right.
  - assert (Hlog : log1 = log ++ [ImageRequest crop_path qid answer]
                   \/ log1 = log ++ [ImageRequest crop_path qid answer;
                                     ImageRequest crop_path qid answer]).
    { unfold try_except, openai_explain_question in Himg.
      destruct (image_reply w log) as [e |].
      - inversion Himg; subst. now left.
      - inversion Himg; subst. rewrite <- app_assoc. now right. }
    destruct Hlog as [-> | ->]; rewrite <- app_assoc, drop_app_length; reflexivity.
Qed.

Lemma empty_story_one_follow_up_witness :
  let w := blank_story_world in
  let log1 := [ImageRequest "A1.jpg" "A1" "C"] in
  let issued := [OcrRun "A1.jpg"; TextRequest "Wie viele?" "A1" "C"] in
  explain_qid w "A1.jpg" "A1" "C" [] []
  = (Ok [("A1"%string,
          JObj [("hint"%string, JStr "Count."); ("story"%string, JStr "Two.")])],
     log1 ++ issued)
  /\ (log1 = [] ++ [ImageRequest "A1.jpg" "A1" "C"]
      \/ log1 = [] ++ [ImageRequest "A1.jpg" "A1" "C"; ImageRequest "A1.jpg" "A1" "C"])
  /\ List.filter is_text_request (drop (length ([] : list request)) (log1 ++ issued))
     = [TextRequest "Wie viele?" "A1" "C"].
Proof.
  cbv zeta.
  apply (empty_story_one_follow_up blank_story_world "A1.jpg" "A1" "C" [] []
           [ImageRequest "A1.jpg" "A1" "C"]
           [("hint"%string, JStr "Count."); ("story"%string, JStr "  ")]).
  - reflexivity.
  - reflexivity.
Defined.

Lemma story_missing_told (explanation : json) :
  story_told explanation -> story_missing explanation = ret false.
Proof.
  intros (d & s & -> & Hs & Hb). unfold story_missing. rewrite Hs.
  destruct (Py.nonempty (Py.strip s)) eqn:E; [reflexivity |].
  apply strip_blank in E. congruence.
Qed.

(** When the image request is answered, at once or at its repetition,
    with an object whose story has a character that is not white space,
    the run of the question calls neither the OCR nor the text request:
    the record of calls grows by the one or two image requests only, and
    the answer itself is stored under the question id. *)
Theorem story_present_no_follow_up (w : world) (crop_path qid answer : string)
        (explanations : dict json) (log log1 : list request) (explanation : json) :
  image_answered w crop_path qid answer log explanation log1 ->
  story_told explanation ->
  explain_qid w crop_path qid answer explanations log
  = (Ok (dict_set qid explanation explanations), log1).
Proof.
  intros Himg Hstory.
  assert (Htry : try_except (openai_explain_question w crop_path qid answer)
                            (openai_explain_question w crop_path qid answer) log
                 = (Ok explanation, log1)).
  { unfold try_except, openai_explain_question.
    destruct Himg as [[-> ->] | (e & -> & -> & ->)]; [reflexivity |].
    now rewrite <- app_assoc. }
  unfold explain_qid, bind. rewrite Htry, (story_missing_told explanation Hstory).
  reflexivity.
Qed.

Lemma story_present_no_follow_up_witness :
  let story := JObj [("hint"%string, JStr "Count."); ("story"%string, JStr " Two. ")] in
  let w := mkworld (fun log => match log with
                               | [] => Raised (Exception "URLError")
                               | _ => Ok story
                               end)
                   (fun _ => "Wie viele?"%string)
                   (fun _ => Raised (Exception "URLError")) in
  explain_qid w "A1.jpg" "A1" "C" [] []
  = (Ok (dict_set "A1" story []),
     [ImageRequest "A1.jpg" "A1" "C"; ImageRequest "A1.jpg" "A1" "C"]).
Proof.
  cbv zeta. apply story_present_no_follow_up.
  - right. exists (Exception "URLError"). repeat split.
  - eexists _, _. repeat split.
Defined.

End RequestFacts.

(** ** Command lines *)

(** C7, as stated: run without arguments and with none of its input files
    present, extract_label_positions.py prints three notes and ends with
    status 0. *)
Lemma label_extractor_exit_counterexample :
  Labels.main (fun _ => false) (fun _ => true) ["scripts/extract_label_positions.py"%string]
  = ([Labels.Skipping "public/kangaroo-2025/kangaroo-2025.pdf";
      Labels.Skipping "public/kangaroo-2024/kangaroo-2024.pdf";
      Labels.Skipping "public/kangaroo-2023/kangaroo-2023.pdf"], 0)
  /\ ~ (snd (Labels.main (fun _ => false) (fun _ => true)
                         ["scripts/extract_label_positions.py"%string]) <> 0).
Proof. split; [reflexivity |]. intros H. apply H. reflexivity. Qed.

Lemma labels_main_loop_missing (path_exists readable : string -> bool)
      (pdfs : list (string * string)) (printed : list Labels.message) :
  (forall pdf_path, In pdf_path (map snd pdfs) -> path_exists pdf_path = false) ->
  Labels.main_loop path_exists readable pdfs printed
  = (printed ++ map Labels.Skipping (map snd pdfs), 0).
Proof.
  revert printed. induction pdfs as [| [year pdf_path] pdfs IH]; intros printed H; simpl.
  - now rewrite app_nil_r.
  - rewrite (H pdf_path) by (simpl; auto). simpl.
    rewrite IH by (intros p Hp; apply H; simpl; auto).
    now rewrite <- app_assoc.
Qed.

Lemma labels_main_loop_passes (path_exists readable : string -> bool)
      (pdfs : list (string * string)) (printed : list Labels.message) :
  (forall pdf, In pdf pdfs -> passes path_exists readable pdf) ->
  Labels.main_loop path_exists readable pdfs printed
  = (printed ++ map (note path_exists) pdfs, 0).
Proof.
  revert printed. induction pdfs as [| [year pdf_path] pdfs IH]; intros printed H; simpl.
  - now rewrite app_nil_r.
  - pose proof (H (year, pdf_path) (or_introl eq_refl)) as Hp. unfold passes in Hp.
    simpl in Hp. unfold note at 1. simpl.
    destruct (path_exists pdf_path); simpl.
    + rewrite Hp by reflexivity.
      rewrite IH by (intros p Hin; apply H; now right). now rewrite <- app_assoc.
    + rewrite IH by (intros p Hin; apply H; now right). now rewrite <- app_assoc.
Qed.

Lemma labels_main_loop_status (path_exists readable : string -> bool)
      (pdfs : list (string * string)) (printed : list Labels.message) :
  snd (Labels.main_loop path_exists readable pdfs printed) <> 0 ->
  exists pdf, In pdf pdfs /\ path_exists (snd pdf) = true /\ readable (snd pdf) = false.
Proof.
  revert printed. induction pdfs as [| [year pdf_path] pdfs IH]; intros printed; simpl.
  - intros H. now contradiction H.
  - destruct (path_exists pdf_path) eqn:E; simpl.
    + destruct (readable pdf_path) eqn:R.
      * intros H. destruct (IH _ H) as (pdf & Hin & Hp). exists pdf. split; [now right | exact Hp].
      * intros _. exists (year, pdf_path). split; [now left | now split].
    + intros H. destruct (IH _ H) as (pdf & Hin & Hp). exists pdf. split; [now right | exact Hp].
Qed.

(** C7, amended.  The three scripts that read [sys.argv] print a usage
    note and exit with status 1 when fewer than two arguments follow the
    script name, and print that the file was not found and exit with
    status 1 when the first argument names no existing file.
    extract_label_positions.py reads no argument: its run is the same for
    every [argv].  Whatever files exist, a missing one is skipped with a
    note and never ends the run: when every file that exists is read
    without an exception the run prints one line for each entry of
    [PDFS], a note for a missing file and a report for a written one, and
    ends with status 0; and a status other than 0 means that a file that
    exists could not be read. *)
Theorem command_line_checks (argv : list string) (path_exists : string -> bool) :
  ((length argv < 3)%nat ->
     Explain.main_args argv path_exists = ([Explain.Usage], Explain.Exit 1)
     /\ Solutions.main_args argv path_exists = ([Solutions.Usage], Solutions.Exit 1))
  /\ (forall script pdf_path year more,
        argv = script :: pdf_path :: year :: more ->
        path_exists pdf_path = false ->
        Explain.main_args argv path_exists
        = ([Explain.FileNotFound pdf_path], Explain.Exit 1)
        /\ Solutions.main_args argv path_exists
           = ([Solutions.FileNotFound pdf_path], Solutions.Exit 1))
  /\ (forall readable argv',
        Labels.main path_exists readable argv = Labels.main path_exists readable argv')
  /\ (forall readable,
        (forall pdf, In pdf Labels.PDFS -> passes path_exists readable pdf) ->
        Labels.main path_exists readable argv
        = (map (note path_exists) Labels.PDFS, 0))
  /\ (forall readable,
        snd (Labels.main path_exists readable argv) <> 0 ->
        exists pdf, In pdf Labels.PDFS
                    /\ path_exists (snd pdf) = true /\ readable (snd pdf) = false).
Proof.
  split; [| split; [| split; [| split]]].
  - intros H. destruct argv as [| a [| b [| c argv]]]; simpl in H; try lia; auto.
  - intros script pdf_path year more -> H. simpl. now rewrite H.
  - reflexivity.
  - intros readable H. unfold Labels.main.
    now rewrite (labels_main_loop_passes _ _ _ [] H).
  - intros readable. apply labels_main_loop_status.
Qed.

(** The file of 2024 missing, the two others read: one note, two
    reports, status 0. *)
Example labels_main_one_missing :
  Labels.main (fun p => negb (String.eqb p "public/kangaroo-2024/kangaroo-2024.pdf"))
              (fun _ => true) []
  = ([Labels.Wrote "2025"; Labels.Skipping "public/kangaroo-2024/kangaroo-2024.pdf";
      Labels.Wrote "2023"], 0).
Proof. reflexivity. Qed.

Example explain_main_args_ok :
  Explain.main_args ["gen.py"; "k.pdf"; "2025"]%string (fun _ => true)
  = ([], Explain.Proceed "k.pdf" "2025").
Proof. reflexivity. Qed.

Section LabelFacts.
Import Labels.

(** ** Labels of a page *)

Lemma occurrences_step_lookup occurrences w label :
  default [] (occurrences_step occurrences w !! label)
  = default [] (occurrences !! label) ++ coords_of label [w].
Proof.
  unfold occurrences_step, coords_of. simpl.
  destruct (is_label w); simpl; [| now rewrite app_nil_r].
  destruct (String.eqb_spec (cleaned w) label) as [-> | Hne]; simpl.
  - now rewrite lookup_insert_eq.
  - rewrite lookup_insert_ne by exact Hne. now rewrite app_nil_r.
Qed.

Lemma occurrences_fold_lookup ws occurrences label :
  default [] (fold_left occurrences_step ws occurrences !! label)
  = default [] (occurrences !! label) ++ coords_of label ws.
Proof.
  revert occurrences. induction ws as [| w ws IH]; intros occurrences; simpl.
  - unfold coords_of. simpl. now rewrite app_nil_r.
  - rewrite IH, occurrences_step_lookup, <- app_assoc. f_equal.
    unfold coords_of. simpl.
    destruct (is_label w && String.eqb (cleaned w) label); reflexivity.
Qed.

Lemma occurrences_step_no_empty occurrences w :
  no_empty occurrences -> no_empty (occurrences_step occurrences w).
Proof.
  intros H label. unfold occurrences_step. destruct (is_label w); [| apply H].
  destruct (decide (cleaned w = label)) as [-> | Hne].
  - rewrite lookup_insert_eq. intros E. inversion E as [E'].
    now apply app_eq_nil in E' as [_ ?].
  - rewrite lookup_insert_ne by exact Hne. apply H.
Qed.

Lemma occurrences_fold_no_empty ws occurrences :
  no_empty occurrences -> no_empty (fold_left occurrences_step ws occurrences).
Proof.
  revert occurrences. induction ws as [| w ws IH]; intros occurrences H; simpl;
    [exact H |].
  apply IH. now apply occurrences_step_no_empty.
Qed.

Lemma occurrences_of_lookup ws label :
  occurrences_of ws !! label
  = match coords_of label ws with [] => None | coords => Some coords end.
Proof.
  pose proof (occurrences_fold_lookup ws ∅ label) as H.
  pose proof (occurrences_fold_no_empty ws ∅) as Hne.
  unfold occurrences_of. rewrite lookup_empty in H. simpl in H.
  destruct (fold_left occurrences_step ws ∅ !! label) as [l |] eqn:E; simpl in H.
  - rewrite <- H. destruct l; [| reflexivity].
    exfalso. apply (Hne ltac:(intros k; now rewrite lookup_empty) label E).
  - now rewrite <- H.
Qed.

Lemma first_sorted_some (coords : list (Q * Q)) :
  coords <> [] -> is_Some (first_sorted coords).
Proof.
  intros H. unfold first_sorted.
  pose proof (sorted_by_perm Py.lt_pair (fun value : Q * Q => (fst value, snd value)) coords)
    as Hp.
  destruct (Py.sorted_by _ _ coords) as [| c l]; simpl; [| eauto].
  apply Permutation_nil in Hp. congruence.
Qed.

Lemma labels_of_lookup ws label :
  labels_of ws !! label
  = match coords_of label ws with [] => None | coords => first_sorted coords end.
Proof.
  unfold labels_of. rewrite lookup_omap, occurrences_of_lookup.
  destruct (coords_of label ws); reflexivity.
Qed.

Lemma coords_of_nonempty ws label :
  coords_of label ws <> [] <->
  exists w, In w ws /\ is_label w = true /\ cleaned w = label.
Proof.
  unfold coords_of. split.
  - intros H. destruct (List.filter _ ws) as [| w l] eqn:E; [contradiction |].
    assert (Hw : In w (List.filter (fun w => is_label w && String.eqb (cleaned w) label) ws))
      by (rewrite E; now left).
    apply filter_In in Hw as [Hin Hw]. apply andb_true_iff in Hw as [H1 H2].
    apply String.eqb_eq in H2. now exists w.
  - intros (w & Hin & H1 & H2) E. apply map_eq_nil in E.
    assert (Hw : In w (List.filter (fun w => is_label w && String.eqb (cleaned w) label) ws)).
    { apply filter_In. split; [exact Hin |]. rewrite H1, H2, String.eqb_refl. reflexivity. }
    rewrite E in Hw. contradiction.
Qed.

Lemma labels_of_is_Some ws label :
  is_Some (labels_of ws !! label) <->
  exists w, In w ws /\ is_label w = true /\ cleaned w = label.
Proof.
  rewrite labels_of_lookup, <- coords_of_nonempty.
  destruct (coords_of label ws) as [| c l] eqn:E.
  - split; [intros [? H]; discriminate | congruence].
  - split; [discriminate |]. intros _. now apply first_sorted_some.
Qed.

Lemma labels_of_empty ws :
  labels_of ws = ∅ <-> forall w, In w ws -> is_label w = false.
Proof.
  rewrite map_empty. split.
  - intros H w Hin. destruct (is_label w) eqn:E; [| reflexivity].
    specialize (H (cleaned w)). apply eq_None_not_Some in H. exfalso. apply H.
    apply labels_of_is_Some. now exists w.
  - intros H label. apply eq_None_not_Some. intros Hs.
    apply labels_of_is_Some in Hs as (w & Hin & Hl & _).
    rewrite (H w Hin) in Hl. discriminate.
Qed.

(** ** The first element of a sorted list *)

Section SortedHead.
Context {A K : Type} (ltk : K -> K -> bool) (key : A -> K).
Hypothesis ltk_asym : forall a b, ltk a b = true -> ltk b a = false.
Hypothesis ltk_neg_trans :
  forall a b c, ltk a b = false -> ltk b c = false -> ltk a c = false.

Lemma ltk_irrefl a : ltk a a = false.
Proof. destruct (ltk a a) eqn:E; [| reflexivity]. now rewrite (ltk_asym _ _ E) in E. Qed.

Lemma sorted_by_head_least (l : list A) (m : A) :
  head (Py.sorted_by ltk key l) = Some m ->
  forall z, In z l -> ltk (key z) (key m) = false.
Proof.
  revert m. induction l as [| x l IH]; intros m Hm z Hz; [contradiction |].
  cbn [Py.sorted_by] in Hm.
  pose proof (sorted_by_perm ltk key l) as Hp.
  destruct (Py.sorted_by ltk key l) as [| y s] eqn:Es.
  - apply Permutation_nil in Hp. subst l. simpl in Hm. inversion Hm; subst.
    destruct Hz as [-> | []]. apply ltk_irrefl.
  - cbn [Py.insert_by] in Hm. specialize (IH y eq_refl).
    destruct (ltk (key y) (key x)) eqn:E; simpl in Hm; inversion Hm; subst.
    + destruct Hz as [-> | Hz]; [now apply ltk_asym | now apply IH].
    + destruct Hz as [-> | Hz]; [apply ltk_irrefl |].
      eapply ltk_neg_trans; [apply IH, Hz | exact E].
Qed.
End SortedHead.

Lemma lt_pair_false (a b : Q * Q) : Py.lt_pair b a = false <-> lex_le a b.
Proof.
  unfold Py.lt_pair, lex_le.
  rewrite orb_false_iff, andb_false_iff, !ltb_ge.
  rewrite <- not_true_iff_false, Qeq_bool_iff.
  split.
  - intros [H1 [H2 | H2]].
    + destruct (Qlt_le_dec (fst a) (fst b)) as [H | H]; [now left |].
      exfalso. apply H2. lra.
    + destruct (Qlt_le_dec (fst a) (fst b)) as [H | H]; [now left |].
      right. split; [lra | exact H2].
  - intros [H | [H1 H2]].
    + split; [lra |]. left. intros E. lra.
    + split; [lra |]. now right.
Qed.

Lemma lt_pair_true (a b : Q * Q) : Py.lt_pair a b = true -> lex_le a b /\ ~ lex_le b a.
Proof.
  intros H. split.
  - unfold Py.lt_pair in H. apply orb_true_iff in H as [H | H].
    + left. now apply ltb_lt.
    + apply andb_true_iff in H as [H1 H2]. apply Qeq_bool_iff in H1.
      apply ltb_lt in H2. right. split; [exact H1 | lra].
  - intros Hba. apply lt_pair_false in Hba. congruence.
Qed.

Lemma lt_pair_asym (a b : Q * Q) : Py.lt_pair a b = true -> Py.lt_pair b a = false.
Proof. intros H. apply lt_pair_false. now apply lt_pair_true. Qed.

Lemma lt_pair_neg_trans (a b c : Q * Q) :
  Py.lt_pair a b = false -> Py.lt_pair b c = false -> Py.lt_pair a c = false.
Proof.
  rewrite !lt_pair_false. unfold lex_le. intros [H1 | [H1 H1']] [H2 | [H2 H2']].
  - left. lra.
  - left. lra.
  - left. lra.
  - right. split; lra.
Qed.

(** The position kept for a label on a page is one of its occurrences,
    the left-most one, and among those level with it the top-most. *)
Theorem labels_of_leftmost_topmost (ws : list word) (label : string) (kept : Q * Q) :
  labels_of ws !! label = Some kept ->
  In kept (coords_of label ws)
  /\ forall other, In other (coords_of label ws) -> lex_le kept other.
Proof.
  rewrite labels_of_lookup. intros H.
  destruct (coords_of label ws) as [| c l] eqn:E; [discriminate |].
  rewrite <- E in *. clear E c l. unfold first_sorted in H.
  set (key := fun value : Q * Q => (fst value, snd value)) in *.
  split.
  - apply (Permutation_in kept (sorted_by_perm Py.lt_pair key _)).
    destruct (Py.sorted_by Py.lt_pair key (coords_of label ws)); simpl in H;
      inversion H; subst. now left.
  - intros other Hother. apply lt_pair_false.
    apply (sorted_by_head_least Py.lt_pair key lt_pair_asym lt_pair_neg_trans _ kept H
             other Hother).
Qed.

Lemma labels_of_leftmost_topmost_witness :
  let ws := [mkword 100 200 120 210 "A1."; mkword 100 100 120 110 "A1";
             mkword 300 50 320 60 "(A1)"] in
  In (100%Q, 100%Q) (coords_of "A1" ws)
  /\ forall other, In other (coords_of "A1" ws) -> lex_le (100%Q, 100%Q) other.
Proof.
  cbv zeta. apply labels_of_leftmost_topmost. vm_compute. reflexivity.
Defined.

Example labels_of_two_occurrences :
  labels_of [mkword 100 200 120 210 "A1."; mkword 100 100 120 110 "A1";
             mkword 300 50 320 60 "(A1)"] !! "A1"%string
  = Some (100%Q, 100%Q).
Proof. vm_compute. reflexivity. Qed.

(** ** The valid ids *)

Lemma one_to_ten_range (i : Z) : In i one_to_ten <-> 1 <= i <= 10.
Proof. unfold one_to_ten. simpl. lia. Qed.

Lemma VALID_IDS_spec (label : string) :
  label ∈ VALID_IDS <->
  exists letter i,
    In letter ["A"; "B"; "C"]%string /\ 1 <= i <= 10
    /\ label = String.append letter (Py.str i).
Proof.
  unfold VALID_IDS. rewrite !elem_of_union, !elem_of_list_to_set.
  rewrite !list_elem_of_In, !in_map_iff. setoid_rewrite one_to_ten_range.
  split.
  - intros [[(i & <- & H) | (i & <- & H)] | (i & <- & H)].
    + exists "A"%string, i. simpl. auto.
    + exists "B"%string, i. simpl. auto.
    + exists "C"%string, i. simpl. auto.
  - intros (letter & i & Hl & Hi & ->). simpl in Hl.
    destruct Hl as [<- | [<- | [<- | []]]]; eauto.
Qed.

Lemma digit_1_9 (d : ascii) :
  Py.between 49 57 d = true ->
  In (String d EmptyString) (map Py.str [1; 2; 3; 4; 5; 6; 7; 8; 9]).
Proof.
  destruct d as [[] [] [] [] [] [] [] []]; vm_compute; intros H;
    try discriminate; tauto.
Qed.

Lemma LABEL_PATTERN_valid (s : string) : LABEL_PATTERN s = true -> s ∈ VALID_IDS.
Proof.
  intros H. apply VALID_IDS_spec.
  destruct s as [| c rest]; simpl in H; [discriminate |].
  apply andb_true_iff in H as [Hc Hrest].
  assert (Hletter : In (String c EmptyString) ["A"; "B"; "C"]%string).
  { apply orb_true_iff in Hc as [Hc | Hc]; [apply orb_true_iff in Hc as [Hc | Hc] |];
      apply Ascii.eqb_eq in Hc; subst; simpl; auto. }
  exists (String c EmptyString).
  assert (Hidx : exists i, 1 <= i <= 10 /\ rest = Py.str i).
  { destruct rest as [| d rest]; [discriminate |].
    destruct rest as [| e rest].
    - assert (Hd : Py.between 49 57 d = true).
      { destruct d as [[] [] [] [] [] [] [] []]; try exact Hrest; reflexivity. }
      apply digit_1_9, in_map_iff in Hd as (i & <- & Hi).
      exists i. split; [simpl in Hi; lia | reflexivity].
    - destruct rest as [| f rest].
      + exists 10. split; [lia |].
        destruct d as [[] [] [] [] [] [] [] []]; try discriminate;
          destruct e as [[] [] [] [] [] [] [] []]; try discriminate. reflexivity.
      + destruct d as [[] [] [] [] [] [] [] []]; try discriminate;
          destruct e as [[] [] [] [] [] [] [] []]; discriminate. }
  destruct Hidx as (i & Hi & ->). exists i. auto.
Qed.

(** ** The pages of a PDF *)

Lemma VALID_IDS_size : size VALID_IDS = 30%nat.
Proof. vm_compute. reflexivity. Qed.

Lemma numbered_snoc (pages : list page) (pg : page) :
  numbered (pages ++ [pg]) = numbered pages ++ [(S (length pages), pg)].
Proof.
  unfold numbered. rewrite length_app. simpl length.
  rewrite seq_app. simpl seq.
  rewrite (zip_with_app pair (seq 1 (length pages)) [S (length pages)] pages [pg])
    by now rewrite length_seq.
  reflexivity.
Qed.

Lemma extract_for_pdf_snoc (pages : list page) (pg : page) :
  extract_for_pdf (pages ++ [pg])
  = page_step (extract_for_pdf pages) (S (length pages), pg).
Proof.
  unfold extract_for_pdf. now rewrite numbered_snoc, fold_left_app.
Qed.

Lemma page_key_inj (n m : nat) : page_key n = page_key m -> n = m.
Proof.
  unfold page_key, Py.str. intros H. apply (inj pretty) in H. lia.
Qed.

Lemma extract_for_pdf_lookup (pages : list page) (key : string)
      (labels : gmap string (Q * Q)) :
  snd (extract_for_pdf pages) !! key = Some labels <->
  exists n pg, pages !! n = Some pg /\ key = page_key n
               /\ labels = labels_of (words pg) /\ labels <> ∅.
Proof.
  revert key labels. induction pages as [| pg pages IH] using rev_ind; intros key labels.
  - unfold extract_for_pdf. simpl. rewrite lookup_empty. split; [discriminate |].
    intros (n & pg & H & _). discriminate.
  - rewrite extract_for_pdf_snoc. unfold page_step.
    set (out := extract_for_pdf pages) in *. simpl.
    fold (page_key (length pages)).
    destruct (bool_decide (labels_of (words pg) = ∅)) eqn:Eempty.
    + apply bool_decide_eq_true in Eempty. rewrite IH. split.
      * intros (n & pg' & Hn & Hk & Hl & Hne). exists n, pg'.
        split; [| auto]. apply lookup_app_l_Some. exact Hn.
      * intros (n & pg' & Hn & Hk & Hl & Hne). exists n, pg'.
        split; [| auto]. apply lookup_app_Some in Hn as [Hn | [Hlen Hn]]; [exact Hn |].
        apply list_lookup_singleton_Some in Hn as [_ <-]. congruence.
    + apply bool_decide_eq_false in Eempty.
      destruct (decide (page_key (length pages) = key)) as [<- | Hne].
      * rewrite lookup_insert_eq. split.
        -- intros E. inversion E; subst. exists (length pages), pg.
           split; [| auto]. rewrite lookup_app_r by lia.
           now rewrite Nat.sub_diag.
        -- intros (n & pg' & Hn & Hk & -> & _). apply page_key_inj in Hk. subst n.
           rewrite lookup_app_r in Hn by lia. rewrite Nat.sub_diag in Hn.
           inversion Hn. reflexivity.
      * rewrite lookup_insert_ne by exact Hne. rewrite IH. split.
        -- intros (n & pg' & Hn & Hk & Hl & Hne'). exists n, pg'.
           split; [| auto]. apply lookup_app_l_Some. exact Hn.
        -- intros (n & pg' & Hn & Hk & Hl & Hne'). exists n, pg'.
           split; [| auto]. apply lookup_app_Some in Hn as [Hn | [Hlen Hn]]; [exact Hn |].
           apply list_lookup_singleton_Some in Hn as [Hz _].
           exfalso. apply Hne. rewrite Hk. f_equal. lia.
Qed.

Lemma is_alnum_spec (c : ascii) :
  Py.is_alnum c = existsb (Ascii.eqb c) letters_and_digits.
Proof. destruct c as [[] [] [] [] [] [] [] []]; vm_compute; reflexivity. Qed.

Lemma keep_alnum_filter (s : string) : Py.keep_alnum s = alnum_part s.
Proof.
  unfold alnum_part. induction s as [| c s IH]; [reflexivity |].
  cbn [Py.keep_alnum list_ascii_of_string List.filter]. rewrite <- is_alnum_spec.
  destruct (Py.is_alnum c); cbn [string_of_list_ascii]; now rewrite IH.
Qed.

Lemma valid_id_VALID_IDS (label : string) : valid_id label <-> label ∈ VALID_IDS.
Proof.
  unfold valid_id. rewrite <- list_elem_of_In. split.
  - assert (H : Forall (fun l => l ∈ VALID_IDS) valid_ids).
    { apply (bool_decide_unpack _). vm_compute. reflexivity. }
    rewrite Forall_forall in H. apply H.
  - assert (H : Forall (fun l => l ∈ valid_ids) (elements VALID_IDS)).
    { apply (bool_decide_unpack _). vm_compute. reflexivity. }
    rewrite Forall_forall in H. intros Hl. apply H. now apply elem_of_elements.
Qed.

Lemma valid_id_pattern (label : string) : valid_id label -> LABEL_PATTERN label = true.
Proof.
  unfold valid_id, valid_ids. intros H. simpl in H.
  repeat match goal with
         | H : _ \/ _ |- _ => destruct H
         | H : False |- _ => contradiction
         end; subst; reflexivity.
Qed.

Lemma is_label_valid (w : word) :
  is_label w = true <-> valid_id (alnum_part (text w)).
Proof.
  unfold is_label, cleaned. rewrite keep_alnum_filter, andb_true_iff, bool_decide_eq_true.
  rewrite <- valid_id_VALID_IDS. split; [tauto |].
  intros H. split; [now apply valid_id_pattern | exact H].
Qed.

Lemma labels_of_key (ws : list word) (label : string) :
  is_Some (labels_of ws !! label) <->
  valid_id label /\ exists w, In w ws /\ alnum_part (text w) = label.
Proof.
  rewrite labels_of_is_Some. split.
  - intros (w & Hin & Hl & Hc). apply is_label_valid in Hl.
    unfold cleaned in Hc. rewrite keep_alnum_filter in Hc. rewrite Hc in Hl.
    split; [exact Hl | now exists w].
  - intros (Hv & w & Hin & Hc). exists w. split; [exact Hin |]. split.
    + apply is_label_valid. now rewrite Hc.
    + unfold cleaned. now rewrite keep_alnum_filter.
Qed.

Lemma labels_of_some_label (ws : list word) :
  labels_of ws <> ∅ <-> exists w, In w ws /\ valid_id (alnum_part (text w)).
Proof.
  split.
  - intros Hne. apply map_choose in Hne as (label & kept & Hl).
    assert (Hs : is_Some (labels_of ws !! label)) by eauto.
    apply labels_of_key in Hs as (Hv & w & Hin & <-). now exists w.
  - intros (w & Hin & Hv) E. rewrite labels_of_empty in E.
    apply is_label_valid in Hv. rewrite (E w Hin) in Hv. discriminate.
Qed.

(** C10.  On every page the keys of the labels are exactly the valid ids
    spelled by the letters and digits of some word of the page; a page
    number is a key of [labels] exactly when the page has such a word,
    and no page is mapped to an empty object; the valid ids are the
    thirty strings A1 to C10, which are the members of [VALID_IDS] and
    the strings [LABEL_PATTERN] matches. *)
Theorem extract_for_pdf_label_keys (pages : list page) :
  let label_positions := snd (extract_for_pdf pages) in
  (forall n pg label,
      pages !! n = Some pg ->
      ((exists labels,
           label_positions !! Py.str (Z.of_nat (S n)) = Some labels
           /\ is_Some (labels !! label))
       <-> valid_id label /\ exists w, In w (words pg) /\ alnum_part (text w) = label))
  /\ (forall n pg,
        pages !! n = Some pg ->
        (is_Some (label_positions !! Py.str (Z.of_nat (S n))) <->
         exists w, In w (words pg) /\ valid_id (alnum_part (text w))))
  /\ (forall key labels,
        label_positions !! key = Some labels ->
        labels <> ∅
        /\ exists n pg, pages !! n = Some pg /\ key = Py.str (Z.of_nat (S n)))
  /\ (forall label,
        (valid_id label <-> label ∈ VALID_IDS)
        /\ (valid_id label <-> LABEL_PATTERN label = true))
  /\ length valid_ids = 30%nat /\ NoDup valid_ids.
Proof.
  cbv zeta. split; [| split; [| split; [| split; [| split]]]].
  - intros n pg label Hn. fold (page_key n). split.
    + intros (labels & Hk & Hs).
      apply extract_for_pdf_lookup in Hk as (m & pg' & Hm & Hk & -> & _).
      apply page_key_inj in Hk. subst m. rewrite Hn in Hm. inversion Hm; subst pg'.
      now apply labels_of_key.
    + intros H. exists (labels_of (words pg)). split; [| now apply labels_of_key].
      apply extract_for_pdf_lookup. exists n, pg. repeat split; try assumption.
      apply labels_of_some_label. destruct H as (Hv & w & Hin & <-). now exists w.
  - intros n pg Hn. fold (page_key n). split.
    + intros [labels H]. apply extract_for_pdf_lookup in H as (m & pg' & Hm & Hk & -> & Hne).
      apply page_key_inj in Hk. subst m. rewrite Hn in Hm. inversion Hm; subst pg'.
      now apply labels_of_some_label.
    + intros H. exists (labels_of (words pg)).
      apply extract_for_pdf_lookup. exists n, pg. repeat split; try assumption.
      now apply labels_of_some_label.
  - intros key labels H. apply extract_for_pdf_lookup in H as (n & pg & Hn & Hk & -> & Hne).
    split; [exact Hne |]. now exists n, pg.
  - intros label. split; [apply valid_id_VALID_IDS |].
    split; [apply valid_id_pattern |]. intros H. apply valid_id_VALID_IDS.
    now apply LABEL_PATTERN_valid.
  - reflexivity.
  - apply (bool_decide_unpack _). vm_compute. reflexivity.
Qed.

(** A page with the words "A1.", "(B10)", "D4", "A11" and "b2", then a
    page without any label: the first has the keys A1 and B10 and no
    others, the second is left out. *)
Lemma extract_for_pdf_label_keys_witness :
  let pages :=
    [mkpage (Some (595%Q, 842%Q))
       [mkword 10 20 30 40 "A1."; mkword 50 60 70 80 "(B10)"; mkword 1 2 3 4 "D4";
        mkword 5 6 7 8 "A11"; mkword 9 9 9 9 "b2"];
     mkpage (Some (595%Q, 842%Q)) [mkword 1 2 3 4 "Aufgabe"; mkword 5 6 7 8 "10"]] in
  let label_positions := snd (extract_for_pdf pages) in
  (forall label,
      (exists labels, label_positions !! "1"%string = Some labels
                      /\ is_Some (labels !! label))
      <-> label = "A1"%string \/ label = "B10"%string)
  /\ ~ is_Some (label_positions !! "2"%string).
Proof.
  cbv zeta.
  set (w1 := [mkword 10 20 30 40 "A1."; mkword 50 60 70 80 "(B10)"; mkword 1 2 3 4 "D4";
              mkword 5 6 7 8 "A11"; mkword 9 9 9 9 "b2"]).
  set (w2 := [mkword 1 2 3 4 "Aufgabe"; mkword 5 6 7 8 "10"]).
  set (pages := [mkpage (Some (595%Q, 842%Q)) w1; mkpage (Some (595%Q, 842%Q)) w2]).
  destruct (extract_for_pdf_label_keys pages) as (Hkeys & Hpage & _ & Hvalid & _ & _).
  assert (Hno : forall s, LABEL_PATTERN s = false -> ~ valid_id s).
  { intros s Hs Hv. apply Hvalid in Hv. congruence. }
  split.
  - intros label.
    change "1"%string with (Py.str (Z.of_nat 1)).
    rewrite (Hkeys 0%nat (mkpage (Some (595%Q, 842%Q)) w1) label eq_refl). split.
    + intros (Hv & w & Hin & <-). simpl in Hin.
      destruct Hin as [<- | [<- | [<- | [<- | [<- | []]]]]];
        first [now left | now right | exfalso; revert Hv; apply Hno; reflexivity].
    + intros [-> | ->].
      * split; [unfold valid_id; simpl; tauto |].
        exists (mkword 10 20 30 40 "A1."). split; [now left | reflexivity].
      * split; [unfold valid_id; simpl; tauto |].
        exists (mkword 50 60 70 80 "(B10)"). split; [right; now left | reflexivity].
  - change "2"%string with (Py.str (Z.of_nat 2)).
    rewrite (Hpage 1%nat (mkpage (Some (595%Q, 842%Q)) w2) eq_refl).
    intros (w & Hin & Hv). simpl in Hin.
    destruct Hin as [<- | [<- | []]]; revert Hv; apply Hno; reflexivity.
Defined.

End LabelFacts.

Section SolutionFacts.
Import Solutions.

(** ** Item numbers and question ids *)

Lemma qid_of_num_A (num : Z) :
  1 <= num <= 10 -> qid_of_num num = Some (String.append "A" (Py.str num)).
Proof.
  intros H. unfold qid_of_num.
  destruct (Z.leb_spec 1 num); [| lia]. destruct (Z.leb_spec num 30); [| lia].
  destruct (Z.leb_spec num 10); [reflexivity | lia].
Qed.

Lemma qid_of_num_B (num : Z) :
  11 <= num <= 20 -> qid_of_num num = Some (String.append "B" (Py.str (num - 10))).
Proof.
  intros H. unfold qid_of_num.
  destruct (Z.leb_spec 1 num); [| lia]. destruct (Z.leb_spec num 30); [| lia].
  destruct (Z.leb_spec num 10); [lia |].
  destruct (Z.leb_spec num 20); [reflexivity | lia].
Qed.

Lemma qid_of_num_C (num : Z) :
  21 <= num <= 30 -> qid_of_num num = Some (String.append "C" (Py.str (num - 20))).
Proof.
  intros H. unfold qid_of_num.
  destruct (Z.leb_spec 1 num); [| lia]. destruct (Z.leb_spec num 30); [| lia].
  destruct (Z.leb_spec num 10); [lia |].
  destruct (Z.leb_spec num 20); [lia | reflexivity].
Qed.

Lemma qid_of_num_outside (num : Z) : num < 1 \/ 30 < num -> qid_of_num num = None.
Proof.
  intros H. unfold qid_of_num.
  destruct (Z.leb_spec 1 num); [| reflexivity].
  destruct (Z.leb_spec num 30); [lia | reflexivity].
Qed.

Lemma qid_of_num_inside (num : Z) (qid : string) :
  qid_of_num num = Some qid -> 1 <= num <= 30.
Proof.
  intros H. destruct (Z.lt_ge_cases num 1) as [H1 | H1].
  - rewrite qid_of_num_outside in H by lia. discriminate.
  - destruct (Z.lt_ge_cases 30 num) as [H2 | H2]; [| lia].
    rewrite qid_of_num_outside in H by lia. discriminate.
Qed.

Lemma explanations_fold (clean : string -> string) (matches : list (string * string))
      (acc : gmap string string) (qid : string) :
  is_Some (fold_left (record_match clean) matches acc !! qid) <->
  is_Some (acc !! qid)
  \/ exists num_str solution,
       In (num_str, solution) matches /\ qid_of_num (int num_str) = Some qid.
Proof.
  revert acc. induction matches as [| [num_str solution] matches IH]; intros acc; simpl.
  - split; [now left | intros [H | (? & ? & [] & _)]; exact H].
  - rewrite IH. unfold record_match. simpl.
    destruct (qid_of_num (int num_str)) as [q |] eqn:E.
    + destruct (decide (q = qid)) as [-> | Hne].
      * rewrite lookup_insert_eq. split.
        -- intros _. right. exists num_str, solution. auto.
        -- intros _. left. eauto.
      * rewrite lookup_insert_ne by exact Hne. split.
        -- intros [H | (n & s & H & Hq)]; [now left |].
           right. exists n, s. auto.
        -- intros [H | (n & s & [H | H] & Hq)]; [now left | |].
           ++ inversion H; subst. congruence.
           ++ right. exists n, s. auto.
    + split.
      * intros [H | (n & s & H & Hq)]; [now left |]. right. exists n, s. auto.
      * intros [H | (n & s & [H | H] & Hq)]; [now left | |].
        -- inversion H; subst. congruence.
        -- right. exists n, s. auto.
Qed.

(** C5. Items 1, 10, 11, 20, 21, 30 become A1, A10, B1, B10, C1, C10; in
    general 1..10 go to A, 11..20 to B, 21..30 to C; a number outside
    1..30 yields no id, and the mapping built from the matches has an
    entry exactly for the ids of the matched numbers within 1..30. *)
Theorem item_numbers_to_question_ids :
  (qid_of_num (int "1") = Some "A1"%string
   /\ qid_of_num (int "10") = Some "A10"%string
   /\ qid_of_num (int "11") = Some "B1"%string
   /\ qid_of_num (int "20") = Some "B10"%string
   /\ qid_of_num (int "21") = Some "C1"%string
   /\ qid_of_num (int "30") = Some "C10"%string)
  /\ (forall num, 1 <= num <= 10 ->
        qid_of_num num = Some (String.append "A" (Py.str num)))
  /\ (forall num, 11 <= num <= 20 ->
        qid_of_num num = Some (String.append "B" (Py.str (num - 10))))
  /\ (forall num, 21 <= num <= 30 ->
        qid_of_num num = Some (String.append "C" (Py.str (num - 20))))
  /\ (forall num, num < 1 \/ 30 < num -> qid_of_num num = None)
  /\ (forall clean matches qid,
        is_Some (explanations_of clean matches !! qid) <->
        exists num_str solution,
          In (num_str, solution) matches
          /\ 1 <= int num_str <= 30
          /\ qid_of_num (int num_str) = Some qid).
Proof.
  split; [repeat split; vm_compute; reflexivity |].
  split; [exact qid_of_num_A |]. split; [exact qid_of_num_B |].
  split; [exact qid_of_num_C |]. split; [exact qid_of_num_outside |].
  intros clean matches qid. unfold explanations_of. rewrite explanations_fold.
  rewrite lookup_empty. split.
  - intros [[? H] | (n & s & H & Hq)]; [discriminate |].
    exists n, s. split; [exact H |]. split; [| exact Hq].
    eapply qid_of_num_inside. exact Hq.
  - intros (n & s & H & _ & Hq). right. exists n, s. auto.
Qed.

Example explanations_discard_outside :
  map_to_list (explanations_of (fun s => s)
                 [("0", "zero"); ("1", "one"); ("31", "far"); ("21", "c")]%string)
  = [("C1", "c"); ("A1", "one")]%string.
Proof. vm_compute. reflexivity. Qed.

(** ** Matching the section headers *)

Lemma lower_of_space (x : ascii) : Py.isspace x = true -> lower x = x.
Proof. destruct x as [[] [] [] [] [] [] [] []]; vm_compute; congruence. Qed.

Lemma lower_of_alnum (c : ascii) : Py.is_alnum c = true -> Py.isspace (lower c) = false.
Proof. destruct c as [[] [] [] [] [] [] [] []]; vm_compute; congruence. Qed.

Lemma ci_eq_nonspace (c x : ascii) :
  Py.is_alnum c = true -> ci_eq c x = true -> Py.isspace x = false.
Proof.
  intros Hc H. apply Ascii.eqb_eq in H.
  destruct (Py.isspace x) eqn:E; [| reflexivity].
  rewrite (lower_of_space x E) in H. rewrite <- H, lower_of_alnum in E by exact Hc.
  discriminate.
Qed.

Section MatcherFacts.
Context {R : Type}.

Lemma spaces_skip (k : text -> option R) (ws s : text) :
  Forall (fun x => Py.isspace x = true) ws -> rejects_space k -> starts_solid s ->
  spaces k (ws ++ s) = k s.
Proof.
  intros Hws Hk Hs. induction Hws as [| x ws Hx _ IH]; simpl.
  - destruct s as [| y s]; simpl in *; [reflexivity | now rewrite Hs].
  - rewrite Hx, IH. destruct (k s) eqn:E; [reflexivity |].
    now apply Hk.
Qed.

Lemma chr_rejects_space (c : ascii) (k : text -> option R) :
  Py.is_alnum c = true -> rejects_space (matching (Chr c) k).
Proof.
  intros Hc x s Hx. simpl. destruct (ci_eq c x) eqn:E; [| reflexivity].
  rewrite (ci_eq_nonspace c x Hc E) in Hx. discriminate.
Qed.

Lemma spaced_pattern_rejects_space (raw : text) (k : text -> option R) :
  raw <> [] -> Forall (fun c => Py.is_alnum c = true) raw ->
  rejects_space (matching (spaced_pattern raw) k).
Proof.
  intros Hne Hraw. destruct raw as [| c raw]; [congruence |].
  inversion Hraw as [| ? ? Hc _]; subst.
  destruct raw as [| c' raw]; cbn [spaced_pattern matching].
  - now apply chr_rejects_space.
  - now apply chr_rejects_space.
Qed.

Lemma spaced_nonempty (raw h : text) : spaced raw h -> raw <> [].
Proof. destruct 1; discriminate. Qed.

Lemma spaced_first (raw h : text) :
  spaced raw h ->
  exists c raw' x h', raw = c :: raw' /\ h = x :: h' /\ ci_eq c x = true.
Proof. destruct 1; eauto 10. Qed.

Lemma spaced_starts_solid (raw h rest : text) :
  spaced raw h -> Forall (fun c => Py.is_alnum c = true) raw ->
  starts_solid (h ++ rest).
Proof.
  intros H Hraw. destruct (spaced_first raw h H) as (c & raw' & x & h' & -> & -> & E).
  inversion Hraw; subst. simpl. eapply ci_eq_nonspace; eassumption.
Qed.

(** A spaced text is matched by the spaced pattern of its characters,
    which then hands over exactly the text that follows. *)
Lemma spaced_match (raw h rest : text) (k : text -> option R) :
  spaced raw h -> Forall (fun c => Py.is_alnum c = true) raw ->
  matching (spaced_pattern raw) k (h ++ rest) = k rest.
Proof.
  intros H. revert k. induction H as [c x E | c x ws raw h E Hws H IH]; intros k Hraw.
  - simpl. now rewrite E.
  - inversion Hraw as [| ? ? Hc Hraw']; subst.
    pose proof (spaced_nonempty raw h H) as Hne.
    destruct raw as [| c' raw]; [congruence |].
    change ((x :: ws ++ h) ++ rest) with (x :: (ws ++ h) ++ rest).
    change (spaced_pattern (c :: c' :: raw))
      with (Cat (Chr c) (Cat Spaces (spaced_pattern (c' :: raw)))).
    cbn [matching]. rewrite E, <- app_assoc.
    rewrite spaces_skip.
    + now apply IH.
    + exact Hws.
    + now apply spaced_pattern_rejects_space.
    + eapply spaced_starts_solid; eassumption.
Qed.
End MatcherFacts.

Section HeaderFacts.
Context {R : Type}.

Lemma or_rejects_space (r1 r2 : regex) (k : text -> option R) :
  rejects_space (matching r1 k) -> rejects_space (matching r2 k) ->
  rejects_space (matching (Or r1 r2) k).
Proof. intros H1 H2 x s Hx. cbn [matching]. now rewrite H1, H2. Qed.

Lemma first_char_mismatch (c c' : ascii) (raw raw' h rest : text)
      (k : text -> option R) :
  spaced (c :: raw) h -> lower c <> lower c' ->
  matching (spaced_pattern (c' :: raw')) k (h ++ rest) = None.
Proof.
  intros H Hne.
  assert (Hx : exists x h', h = x :: h' /\ ci_eq c x = true).
  { inversion H; subst; eauto. }
  destruct Hx as (x & h' & -> & E). apply Ascii.eqb_eq in E.
  assert (E' : ci_eq c' x = false).
  { apply Ascii.eqb_neq. congruence. }
  destruct raw' as [| c'' raw']; cbn [spaced_pattern matching app]; now rewrite E'.
Qed.

Lemma alnum_chars (s : string) :
  forallb Py.is_alnum (chars s) = true ->
  Forall (fun c => Py.is_alnum c = true) (chars s).
Proof. intros H. apply Forall_forall. intros c Hc. rewrite forallb_forall in H.
       apply H. now apply list_elem_of_In. Qed.

(** A header text is matched by the header pattern, which hands over
    exactly the text after it. *)
Lemma header_match (first second : string) (h rest : text) (k : text -> option R) :
  forallb Py.is_alnum (chars first) = true ->
  forallb Py.is_alnum (chars second) = true ->
  header_text first second h ->
  matching (header first second) k (h ++ rest) = k rest.
Proof.
  intros Hfirst Hsecond (a & w1 & b & w2 & c & w3 & d & -> & Ha & Hw1 & Hb & Hw2 & Hc & Hw3 & Hd).
  apply alnum_chars in Hfirst, Hsecond.
  assert (HK : Forall (fun c => Py.is_alnum c = true) (chars "Klassenstufen"))
    by (apply alnum_chars; reflexivity).
  assert (Hund : Forall (fun c => Py.is_alnum c = true) (chars "und"))
    by (apply alnum_chars; reflexivity).
  assert (Hbis : Forall (fun c => Py.is_alnum c = true) (chars "bis"))
    by (apply alnum_chars; reflexivity).
  unfold header. cbn [matching]. rewrite <- !app_assoc.
  rewrite (spaced_match _ a _ _ Ha HK).
  rewrite spaces_skip;
    [| exact Hw1
     | apply spaced_pattern_rejects_space; [eapply spaced_nonempty; exact Hb | exact Hfirst]
     | eapply spaced_starts_solid; eassumption].
  rewrite (spaced_match _ b _ _ Hb Hfirst).
  rewrite spaces_skip;
    [| exact Hw2
     | apply or_rejects_space; apply spaced_pattern_rejects_space;
       solve [discriminate | assumption]
     | destruct Hc as [Hc | Hc]; eapply spaced_starts_solid; eassumption].
  assert (Htail :
    spaces (matching (spaced_pattern (chars second)) k) (w3 ++ d ++ rest) = k rest).
  { rewrite spaces_skip;
      [| exact Hw3
       | apply spaced_pattern_rejects_space;
         [eapply spaced_nonempty; exact Hd | exact Hsecond]
       | eapply spaced_starts_solid; eassumption].
    now apply spaced_match. }
  cbn [matching]. destruct Hc as [Hc | Hc].
  - rewrite (spaced_match _ c _ _ Hc Hund), Htail.
    destruct (k rest) eqn:E; [reflexivity |].
    change (chars "bis") with ("b"%char :: chars "is").
    change (chars "und") with ("u"%char :: chars "nd") in Hc.
    rewrite (first_char_mismatch "u" "b" _ _ _ _ _ Hc) by (vm_compute; congruence).
    reflexivity.
  - change (chars "und") with ("u"%char :: chars "nd").
    change (chars "bis") with ("b"%char :: chars "is") in Hc.
    rewrite (first_char_mismatch "b" "u" _ _ _ _ _ Hc) by (vm_compute; congruence).
    change ("b"%char :: chars "is") with (chars "bis") in Hc.
    rewrite (spaced_match _ c _ _ Hc Hbis). exact Htail.
Qed.
End HeaderFacts.

(** ** Searching *)

Lemma search_from_bounds (r : regex) (s : text) (i a b : nat) :
  search_from r s i = Some (a, b) -> (i <= a)%nat.
Proof.
  revert i. induction s as [| x s IH]; intros i; simpl.
  - destruct (match_at r []); [| discriminate]. intros H. inversion H. lia.
  - destruct (match_at r (x :: s)).
    + intros H. inversion H. lia.
    + intros H. apply IH in H. lia.
Qed.

Lemma search_from_first (r : regex) (s rest : text) (i j : nat) :
  (forall m, (m < j)%nat -> match_at r (drop m s) = None) ->
  (j <= length s)%nat ->
  match_at r (drop j s) = Some rest ->
  search_from r s i = Some ((i + j)%nat, (i + j + (length (drop j s) - length rest))%nat).
Proof.
  revert s i. induction j as [| j IH]; intros s i Hnone Hlen Hmatch.
  - rewrite drop_0 in Hmatch. destruct s; simpl; rewrite Hmatch; repeat f_equal; lia.
  - destruct s as [| x s]; [simpl in Hlen; lia |].
    pose proof (Hnone O ltac:(lia)) as H0. rewrite drop_0 in H0.
    cbn [search_from]. rewrite H0. simpl in Hmatch.
    rewrite (IH s (S i)).
    + simpl. repeat f_equal; lia.
    + intros m Hm. apply (Hnone (S m)). lia.
    + simpl in Hlen. lia.
    + exact Hmatch.
Qed.

(** ** The section between the two headers *)

Lemma search_header (first second : string) (pre h rest : text) :
  forallb Py.is_alnum (chars first) = true ->
  forallb Py.is_alnum (chars second) = true ->
  header_text first second h ->
  (forall m, (m < length pre)%nat ->
             match_at (header first second) (drop m (pre ++ h ++ rest)) = None) ->
  search_from (header first second) (pre ++ h ++ rest) 0
  = Some (length pre, (length pre + length h)%nat).
Proof.
  intros H1 H2 Hh Hnone.
  assert (Hm : match_at (header first second) (drop (length pre) (pre ++ h ++ rest))
               = Some rest).
  { rewrite drop_app_length. unfold match_at. now apply header_match. }
  rewrite (search_from_first _ _ rest 0 (length pre) Hnone).
  - rewrite drop_app_length, length_app. repeat f_equal. lia.
  - rewrite length_app. lia.
  - exact Hm.
Qed.

Lemma search_shift (r : regex) (s : text) (i : nat) :
  search_from r s i
  = (fun p : nat * nat => ((i + fst p)%nat, (i + snd p)%nat)) <$> search_from r s 0.
Proof.
  revert i. induction s as [| x s IH]; intros i; simpl.
  - destruct (match_at r []); simpl; repeat f_equal; lia.
  - destruct (match_at r (x :: s)); simpl; [repeat f_equal; lia |].
    rewrite (IH (S i)), (IH 1%nat). destruct (search_from r s 0) as [[a b] |]; simpl;
      repeat f_equal; lia.
Qed.

(** C6. In a text that holds a grades 7-8 header and, after it, a grades
    9-10 header (each written with any white space between its
    characters), the first 7-8 header is found, the 9-10 header is looked
    for from the end of that match on, and the text between the two is
    returned; when either search finds nothing the run ends with status 1. *)
Theorem find_section_between_headers (t : text) :
  (forall pre h1 mid h2 post,
      t = pre ++ h1 ++ mid ++ h2 ++ post ->
      header_text "7" "8" h1 -> header_text "9" "10" h2 ->
      (forall m, (m < length pre)%nat -> match_at section_start (drop m t) = None) ->
      (forall m, (m < length mid)%nat ->
                 match_at section_end (drop m (mid ++ h2 ++ post)) = None) ->
      find_section t = Ok mid
      /\ ocr_main_section t = ([], Proceed mid)
      /\ main_section t = ([], Proceed mid))
  /\ (forall s e s' e',
        search section_start t 0 = Some (s, e) ->
        search section_end t e = Some (s', e') ->
        (e <= s')%nat
        /\ find_section t = Ok (slice t e s')
        /\ ocr_main_section t = ([], Proceed (slice t e s'))
        /\ main_section t = ([], Proceed (slice t e s')))
  /\ (search section_start t 0 = None ->
        find_section t = ValueError missing_start
        /\ ocr_main_section t = ([missing_start], Exit 1)
        /\ main_section t = ([missing_start], Exit 1))
  /\ (forall s e,
        search section_start t 0 = Some (s, e) ->
        search section_end t e = None ->
        find_section t = ValueError missing_end
        /\ ocr_main_section t = ([missing_end], Exit 1)
        /\ main_section t = ([missing_end], Exit 1)).
Proof.
  assert (Hfound : forall s e s' e',
             search section_start t 0 = Some (s, e) ->
             search section_end t e = Some (s', e') ->
             (e <= s')%nat
             /\ find_section t = Ok (slice t e s')
             /\ ocr_main_section t = ([], Proceed (slice t e s'))
             /\ main_section t = ([], Proceed (slice t e s'))).
  { intros s e s' e' H1 H2. split.
    - unfold search in H2. eapply search_from_bounds. exact H2.
    - unfold ocr_main_section, find_section, main_section. rewrite H1, H2. auto. }
  split; [| split; [exact Hfound | split]].
  - intros pre h1 mid h2 post Ht Hh1 Hh2 Hpre Hmid.
    assert (Hstart : search section_start t 0
                     = Some (length pre, (length pre + length h1)%nat)).
    { unfold search. rewrite drop_0. subst t.
      apply (search_header "7" "8"); auto. }
    assert (Hdrop : drop (length pre + length h1) t = mid ++ h2 ++ post).
    { subst t. rewrite app_assoc, <- length_app. apply drop_app_length. }
    assert (Hend : search section_end t (length pre + length h1)
                   = Some ((length pre + length h1 + length mid)%nat,
                           (length pre + length h1 + (length mid + length h2))%nat)).
    { unfold search. rewrite Hdrop, search_shift. unfold section_end.
      rewrite (search_header "9" "10" mid h2 post); auto. }
    destruct (Hfound _ _ _ _ Hstart Hend) as (_ & Hf & Ho & Hm).
    assert (Hslice : slice t (length pre + length h1)
                           (length pre + length h1 + length mid) = mid).
    { unfold slice. rewrite Hdrop.
      replace (length pre + length h1 + length mid - (length pre + length h1))%nat
        with (length mid) by lia.
      apply take_app_length. }
    rewrite Hslice in Hf, Ho, Hm. auto.
  - intros H. unfold ocr_main_section, find_section, main_section. rewrite H. auto.
  - intros s e H1 H2. unfold ocr_main_section, find_section, main_section.
    rewrite H1, H2. auto.
Qed.

Lemma spaced_plain (raw : text) : raw <> [] -> spaced raw raw.
Proof.
  induction raw as [| c raw IH]; intros H; [congruence |].
  assert (E : ci_eq c c = true) by apply Ascii.eqb_refl.
  destruct raw as [| c' raw].
  - now apply spaced_one.
  - apply (spaced_more c c [] (c' :: raw) (c' :: raw) E); [constructor |].
    apply IH. discriminate.
Qed.

Lemma find_section_between_headers_witness :
  let pre := chars "x " in
  let h1 := chars "Klassenstufen 7 UND 8" in
  let mid := chars " 1 Loesung: a. " in
  let h2 := chars "Klassenstufen 9 bis 1 0" in
  let post := chars " y" in
  let t := pre ++ h1 ++ mid ++ h2 ++ post in
  find_section t = Ok mid
  /\ ocr_main_section t = ([], Proceed mid)
  /\ main_section t = ([], Proceed mid).
Proof.
  cbv zeta.
  apply (proj1 (find_section_between_headers
                  (chars "x " ++ chars "Klassenstufen 7 UND 8" ++ chars " 1 Loesung: a. "
                   ++ chars "Klassenstufen 9 bis 1 0" ++ chars " y"))
               (chars "x ") (chars "Klassenstufen 7 UND 8") (chars " 1 Loesung: a. ")
               (chars "Klassenstufen 9 bis 1 0") (chars " y")).
  - reflexivity.
  - exists (chars "Klassenstufen"), (chars " "), (chars "7"), (chars " "),
      (chars "UND"), (chars " "), (chars "8").
    split; [reflexivity |].
    split; [apply spaced_plain; discriminate |].
    split; [repeat constructor |].
    split; [apply spaced_plain; discriminate |].
    split; [repeat constructor |].
    split.
    { left. apply (spaced_more "u" "U" [] (chars "nd") (chars "ND")); [reflexivity | constructor |].
      apply (spaced_more "n" "N" [] (chars "d") (chars "D")); [reflexivity | constructor |].
      now apply spaced_one. }
    split; [repeat constructor |].
    apply spaced_plain; discriminate.
  - exists (chars "Klassenstufen"), (chars " "), (chars "9"), (chars " "),
      (chars "bis"), (chars " "), (chars "1 0").
    split; [reflexivity |].
    split; [apply spaced_plain; discriminate |].
    split; [repeat constructor |].
    split; [apply spaced_plain; discriminate |].
    split; [repeat constructor |].
    split; [right; apply spaced_plain; discriminate |].
    split; [repeat constructor |].
    apply (spaced_more "1" "1" (chars " ") (chars "0") (chars "0"));
      [reflexivity | repeat constructor | now apply spaced_one].
  - intros m Hm. do 2 (destruct m as [| m]; [vm_compute; reflexivity |]).
    simpl in Hm. lia.
  - intros m Hm. do 15 (destruct m as [| m]; [vm_compute; reflexivity |]).
    simpl in Hm. lia.
Defined.

Example find_section_spaced_headers :
  find_section (chars "x K l a s s e n stufen 7 UND 8 1 Loesung: a. Klassenstufen  9 bis 1 0 y")
  = Ok (chars " 1 Loesung: a. ").
Proof. vm_compute. reflexivity. Qed.

Example find_section_wrong_order :
  main_section (chars "Klassenstufen 9 und 10 ... Klassenstufen 7 und 8 ...")
  = ([missing_end], Exit 1).
Proof. vm_compute. reflexivity. Qed.

End SolutionFacts.

Section CentreFacts.
Import Explain.

(** ** Centres of the columns *)





End CentreFacts.

Section NeighbourFacts.
Context {A : Type} (P : A -> A -> Prop).





Lemma neighbours_tail (a : A) (l : list A) : neighbours P (a :: l) -> neighbours P l.
Proof. intros H i x y Hx Hy. apply (H (S i) x y); assumption. Qed.
End NeighbourFacts.


Section SpreadFacts.
Import Explain.








End SpreadFacts.

Section ColumnFacts.
Import Explain.

(** ** The column chosen for a label *)






End ColumnFacts.

Section BoundaryFacts.
Import Explain.

(** ** The label inside its crop *)








End BoundaryFacts.

Section TokenFacts.
Import Explain.

(** ** Tokens of the words *)

Lemma keep_alnum_app (s t : string) :
  Py.keep_alnum (String.append s t) = String.append (Py.keep_alnum s) (Py.keep_alnum t).
Proof.
  induction s as [| c s IH]; simpl; [reflexivity |].
  destruct (Py.is_alnum c); simpl; now rewrite IH.
Qed.

Lemma replace_O_app (s t : string) :
  replace_O (String.append s t) = String.append (replace_O s) (replace_O t).
Proof. induction s as [| c s IH]; simpl; [reflexivity | now rewrite IH]. Qed.

Lemma all_settled_app (s t : string) :
  all_settled (String.append s t) = all_settled s && all_settled t.
Proof.
  induction s as [| c s IH]; simpl; [reflexivity |]. now rewrite IH, andb_assoc.
Qed.

Lemma append_empty (s : string) : String.append s EmptyString = s.
Proof.
  induction s as [| c s IH]; [reflexivity |].
  change (String c (String.append s EmptyString) = String c s). now rewrite IH.
Qed.

Lemma normalize_token_cons (c : ascii) (s : string) :
  normalize_token (String c s)
  = String.append (normalize_token (String c EmptyString)) (normalize_token s).
Proof.
  unfold normalize_token. cbn [upper].
  now rewrite keep_alnum_app, replace_O_app, append_empty.
Qed.

Lemma normalize_char_settled (c : ascii) :
  all_settled (normalize_token (String c EmptyString)) = true.
Proof. destruct c as [[] [] [] [] [] [] [] []]; vm_compute; reflexivity. Qed.

Lemma normalize_char_fixed (c : ascii) :
  settled c = true -> normalize_token (String c EmptyString) = String c EmptyString.
Proof. destruct c as [[] [] [] [] [] [] [] []]; vm_compute; congruence. Qed.

Lemma normalize_token_settled (token : string) :
  all_settled (normalize_token token) = true.
Proof.
  induction token as [| c s IH]; [reflexivity |].
  rewrite normalize_token_cons, all_settled_app, normalize_char_settled, IH. reflexivity.
Qed.

Lemma normalize_token_fixed (s : string) :
  all_settled s = true -> normalize_token s = s.
Proof.
  induction s as [| c s IH]; intros H; [reflexivity |].
  simpl in H. apply andb_true_iff in H as [Hc Hs].
  rewrite normalize_token_cons, (normalize_char_fixed c Hc), (IH Hs). reflexivity.
Qed.

(** [normalize_token] yields only digits and capital letters other
    than O, and normalising twice is the same as normalising once. *)
Theorem normalize_token_idempotent (token : string) :
  all_settled (normalize_token token) = true
  /\ normalize_token (normalize_token token) = normalize_token token.
Proof.
  split; [apply normalize_token_settled |].
  apply normalize_token_fixed, normalize_token_settled.
Qed.

Example normalize_token_examples :
  normalize_token "(a1O)" = "A10"%string /\ normalize_token "b.7" = "B7"%string
  /\ normalize_token "Oo" = "00"%string.
Proof. repeat split; reflexivity. Qed.
End TokenFacts.

Section DictFacts.
Import Explain.
Context {V : Type}.

(** ** Dictionaries *)

Lemma dict_get_None (k : string) (d : dict V) :
  dict_get k d = None <-> ~ In k (map fst d).
Proof.
  induction d as [| [k' v] d IH]; simpl; [tauto |].
  destruct (String.eqb_spec k' k) as [-> | Hne].
  - split; [discriminate | intros H; exfalso; apply H; now left].
  - rewrite IH. tauto.
Qed.

Lemma dict_set_keys (k : string) (v : V) (d : dict V) :
  map fst (dict_set k v d)
  = match dict_get k d with
    | Some _ => map fst d
    | None => map fst d ++ [k]
    end.
Proof.
  induction d as [| [k' v'] d IH]; simpl; [reflexivity |].
  destruct (String.eqb_spec k' k) as [-> | Hne]; simpl; [reflexivity |].
  rewrite IH. destruct (dict_get k d); reflexivity.
Qed.

(** Reading back what was stored, and leaving the other keys alone. *)
Lemma dict_get_set (k k' : string) (v : V) (d : dict V) :
  dict_get k' (dict_set k v d) = if String.eqb k k' then Some v else dict_get k' d.
Proof.
  induction d as [| [k0 v0] d IH]; simpl.
  - destruct (String.eqb_spec k k'); reflexivity.
  - destruct (String.eqb_spec k0 k) as [-> | Hne]; simpl.
    + destruct (String.eqb_spec k k'); reflexivity.
    + destruct (String.eqb_spec k0 k') as [-> | Hne'].
      * destruct (String.eqb_spec k k'); [congruence | reflexivity].
      * exact IH.
Qed.

Lemma dict_set_NoDup (k : string) (v : V) (d : dict V) :
  NoDup (map fst d) -> NoDup (map fst (dict_set k v d)).
Proof.
  intros H. rewrite dict_set_keys. destruct (dict_get k d) eqn:E; [exact H |].
  apply NoDup_app. split; [exact H |]. split.
  - intros x Hx Hk. apply list_elem_of_In in Hx. apply list_elem_of_singleton in Hk. subst x.
    apply dict_get_None in E. contradiction.
  - apply NoDup_singleton.
Qed.
End DictFacts.

Section DetectionFacts.
Import Explain.
Variables (question_ids : list string) (scale_x scale_y : Q).

(** ** Keys of the labels found *)

Lemma mem_In (s : string) (l : list string) : mem s l = true <-> In s l.
Proof.
  unfold mem. rewrite existsb_exists. split.
  - intros (x & Hx & E). apply String.eqb_eq in E. now subst.
  - intros H. exists s. split; [exact H | apply String.eqb_refl].
Qed.

Lemma record_label_keys positions found :
  keys_ok question_ids positions -> keys_ok question_ids (record_label question_ids scale_x scale_y positions found).
Proof.
  intros [Hnd Hin]. unfold record_label. destruct found as [[label b] |]; [| now split].
  destruct (Py.nonempty label && mem label question_ids) eqn:E; [| now split].
  apply andb_true_iff in E as [_ Hmem]. apply mem_In in Hmem.
  assert (Hset : forall v, keys_ok question_ids (dict_set label v positions)).
  { intros v. split; [now apply dict_set_NoDup |].
    intros k. rewrite dict_set_keys. destruct (dict_get label positions); [apply Hin |].
    intros Hk. apply in_app_or in Hk as [Hk | [<- | []]]; [now apply Hin | exact Hmem]. }
  destruct (dict_get label positions) as [existing |]; [| apply Hset].
  destruct (Py.ltb _ _); [apply Hset | now split].
Qed.

Lemma scan_line_keys line_words positions :
  keys_ok question_ids positions -> keys_ok question_ids (scan_line question_ids scale_x scale_y line_words positions).
Proof.
  revert positions. induction line_words as [| w rest IH]; intros positions H; simpl;
    [exact H |].
  apply IH. now apply record_label_keys.
Qed.

(** The labels found on a page have distinct keys, each one of the
    page's question ids. *)
Theorem extract_label_positions_keys (ws : list word) :
  NoDup (map fst (extract_label_positions question_ids scale_x scale_y ws))
  /\ forall k, In k (map fst (extract_label_positions question_ids scale_x scale_y ws)) ->
               In k question_ids.
Proof.
  unfold extract_label_positions.
  generalize (fold_left group_step ws []). intros lines.
  assert (H : keys_ok question_ids []) by (split; [constructor | intros k []]).
  revert H. generalize (@nil (string * Box.t)).
  induction lines as [| l lines IH]; intros positions H; simpl; [exact H |].
  apply IH. now apply scan_line_keys.
Qed.
End DetectionFacts.

Section LineFacts.
Import Explain.

(** ** Lines of words *)

Lemma join_line_words (w : word) (lines lines' : list line) :
  join_line w lines = Some lines' ->
  Permutation (concat (map words lines')) (w :: concat (map words lines))
  /\ (Forall (fun l => words l <> []) lines -> Forall (fun l => words l <> []) lines').
Proof.
  revert lines'. induction lines as [| l lines IH]; intros lines' H; simpl in H;
    [discriminate |].
  destruct (Qle_bool _ _).
  - inversion H; subst. simpl. split.
    + rewrite <- app_assoc. symmetry. apply Permutation_middle.
    + intros Hall. inversion Hall; subst. constructor; [| assumption].
      simpl. destruct (words l); discriminate.
  - destruct (join_line w lines) as [rest |]; [| discriminate].
    inversion H; subst. destruct (IH rest eq_refl) as [Hp Hne]. simpl. split.
    + rewrite Hp. symmetry. apply Permutation_middle.
    + intros Hall. inversion Hall; subst. constructor; auto.
Qed.

Lemma group_step_words (lines : list line) (w : word) :
  Permutation (concat (map words (group_step lines w))) (w :: concat (map words lines))
  /\ (Forall (fun l => words l <> []) lines ->
      Forall (fun l => words l <> []) (group_step lines w)).
Proof.
  unfold group_step. destruct (join_line w lines) as [lines' |] eqn:E.
  - now apply join_line_words.
  - split.
    + rewrite List.map_app, concat_app. simpl.
      symmetry. apply Permutation_cons_append.
    + intros Hall. apply Forall_app. split; [exact Hall |].
      constructor; [discriminate | constructor].
Qed.

(** Grouping the words of a page into lines loses and repeats nothing:
    the lines together hold exactly the words given, and no line is empty. *)
Theorem lines_hold_every_word (ws : list word) :
  Permutation (concat (map words (fold_left group_step ws []))) ws
  /\ Forall (fun l => words l <> []) (fold_left group_step ws []).
Proof.
  assert (H : forall lines,
             Forall (fun l => words l <> []) lines ->
             Permutation (concat (map words (fold_left group_step ws lines)))
                         (concat (map words lines) ++ ws)
             /\ Forall (fun l => words l <> []) (fold_left group_step ws lines)).
  { induction ws as [| w ws IH]; intros lines Hall; simpl.
    - rewrite app_nil_r. now split.
    - destruct (group_step_words lines w) as [Hp Hne].
      destruct (IH (group_step lines w) (Hne Hall)) as [Hp' Hne'].
      split; [| exact Hne']. rewrite Hp', Hp. simpl.
      apply Permutation_middle. }
  apply (H []). constructor.
Qed.
End LineFacts.

Section BudgetFacts.
Import Run.
Variables (w : world) (crop_dir : string).

(** ** The calls of a page *)

Lemma count_app (kind : call -> bool) (l l' : list call) :
  count kind (l ++ l') = (count kind l + count kind l')%nat.
Proof. unfold count. now rewrite List.filter_app, length_app. Qed.

Lemma question_posts (image_path qid answer : string) (log log' : list call)
      (r : Explain.result Explain.json) :
  openai_explain_question w image_path qid answer log = (r, log') ->
  exists new,
    log' = log ++ new
    /\ ((new = [] /\ exists e, r = Explain.Raised e)
        \/ new = [ImagePost true image_path qid answer]
        \/ new = [ImagePost true image_path qid answer;
                  ImagePost false image_path qid answer]).
Proof.
  unfold openai_explain_question. destruct (api_key w); cbn [negb].
  - destruct (image_bytes w log image_path); cbn [negb].
    + unfold bind, urlopen, lift, raise.
      destruct (post w log) as [parsed | | e].
      * intros E; inversion E; subst. eexists. split; [reflexivity | auto].
      * destruct (post w (log ++ [ImagePost true image_path qid answer])) as [parsed | | e];
          intros E; inversion E; subst; rewrite <- app_assoc;
          (eexists; split; [reflexivity | auto]).
      * intros E; inversion E; subst. eexists. split; [reflexivity | auto].
    + intros E; inversion E; subst. exists []. rewrite app_nil_r. split; [reflexivity |].
      left. split; [reflexivity | eauto].
  - unfold raise. intros E; inversion E; subst. exists []. rewrite app_nil_r.
    split; [reflexivity |]. left. split; [reflexivity | eauto].
Qed.

Lemma retried_posts (image_path qid answer : string) (log log' : list call)
      (r : Explain.result Explain.json) :
  try_except (openai_explain_question w image_path qid answer)
             (openai_explain_question w image_path qid answer) log = (r, log') ->
  exists new,
    log' = log ++ new
    /\ count is_sips new = 0%nat /\ count is_tesseract new = 0%nat
    /\ count is_text_post new = 0%nat
    /\ (count is_image_post new <= 4)%nat
    /\ ((exists e, r = Explain.Raised e) \/ (1 <= count is_image_post new)%nat).
Proof.
  unfold try_except.
  destruct (openai_explain_question w image_path qid answer log) as [[a | e] log1] eqn:E1;
    apply question_posts in E1 as (new1 & -> & H1).
  - intros E; inversion E; subst. exists new1. split; [reflexivity |].
    destruct H1 as [[-> (e & He)] | [-> | ->]]; [discriminate | |];
      cbn; repeat split; auto with arith.
  - intros E2. apply question_posts in E2 as (new2 & -> & H2).
    exists (new1 ++ new2). rewrite <- app_assoc. split; [reflexivity |].
    rewrite !count_app.
    destruct H1 as [[-> _] | [-> | ->]]; destruct H2 as [[-> (e2 & ->)] | [-> | ->]];
      cbn; repeat split; eauto with arith.
Qed.

Lemma text_posts (question_text qid answer : string) (log log' : list call)
      (r : Explain.result Explain.json) :
  openai_explain_from_text w question_text qid answer log = (r, log') ->
  exists new,
    log' = log ++ new
    /\ (new = [] \/ new = [TextPost question_text qid answer]).
Proof.
  unfold openai_explain_from_text. destruct (api_key w); cbn [negb].
  - unfold bind, urlopen, lift, raise.
    destruct (post w log) as [parsed | | e]; intros E; inversion E; subst;
      (eexists; split; [reflexivity | auto]).
  - unfold raise. intros E; inversion E; subst. exists []. rewrite app_nil_r. auto.
Qed.

Lemma story_missing_silent (explanation : Explain.json) (log : list call) :
  snd (story_missing explanation log) = log.
Proof.
  destruct explanation as [| | | | | d]; try reflexivity. simpl.
  destruct (Explain.dict_get "story" d) as [[] |]; reflexivity.
Qed.

Lemma explain_qid_calls (page_path : string) (j : job)
      (explanations : Explain.dict Explain.json) (log log' : list call)
      (r : Explain.result (Explain.dict Explain.json)) :
  explain_qid w crop_dir page_path j explanations log = (r, log') ->
  exists new,
    log' = log ++ new
    /\ within_budget 1 new
    /\ match r with
       | Explain.Ok d =>
           (1 <= count is_image_post new)%nat
           /\ Explain.dict_get (qid j) d <> None
           /\ forall k, Explain.dict_get k explanations <> None
                        -> Explain.dict_get k d <> None
       | Explain.Raised _ => True
       end.
Proof.
  unfold explain_qid, within_budget.
  set (crop_file := String.append crop_dir _).
  set (crop_step := if labelled j
                    then bind (crop_image w page_path crop_file) (fun _ => ret crop_file)
                    else ret page_path).
  assert (Hcrop : forall log0 r0 log1,
             crop_step log0 = (r0, log1) ->
             exists new, log1 = log0 ++ new
                         /\ (new = [] \/ new = [Sips page_path crop_file])).
  { intros log0 r0 log1. unfold crop_step. destruct (labelled j).
    - unfold bind, crop_image, ret. destruct (sips_ok w log0);
        intros E; inversion E; subst; (eexists; split; [reflexivity | auto]).
    - unfold ret. intros E; inversion E; subst. exists []. rewrite app_nil_r. auto. }
  unfold bind at 1.
  destruct (crop_step log) as [[crop_path | e] log1] eqn:E0;
    apply Hcrop in E0 as (new0 & -> & H0).
  2:{ intros E; inversion E; subst. exists new0. split; [reflexivity |].
      destruct H0 as [-> | ->]; cbn; repeat split; auto with arith. }
  unfold bind at 1.
  destruct (try_except _ _ (log ++ new0)) as [[explanation | e] log2] eqn:E1;
    apply retried_posts in E1 as (new1 & -> & Hs1 & Ht1 & Hx1 & Hi1 & Hok1).
  2:{ intros E; inversion E; subst. exists (new0 ++ new1). rewrite <- app_assoc.
      split; [reflexivity |]. rewrite !count_app, Hs1, Ht1, Hx1.
      destruct H0 as [-> | ->]; cbn; repeat split; lia. }
  destruct Hok1 as [(e & He) | Hmin]; [discriminate |].
  unfold bind at 1.
  pose proof (story_missing_silent explanation ((log ++ new0) ++ new1)) as Hsilent.
  destruct (story_missing explanation ((log ++ new0) ++ new1)) as [[missing | e] log3];
    cbn [snd] in Hsilent; subst log3.
  2:{ intros E; inversion E; subst. exists (new0 ++ new1). rewrite <- app_assoc.
      split; [reflexivity |]. rewrite !count_app, Hs1, Ht1, Hx1.
      destruct H0 as [-> | ->]; cbn; repeat split; lia. }
  assert (Hset : forall v : Explain.json,
             Explain.dict_get (qid j) (Explain.dict_set (qid j) v explanations) <> None
             /\ forall k, Explain.dict_get k explanations <> None
                          -> Explain.dict_get k (Explain.dict_set (qid j) v explanations)
                             <> None).
  { intros v. split.
    - rewrite dict_get_set, String.eqb_refl. discriminate.
    - intros k Hk. rewrite dict_get_set. now destruct (String.eqb (qid j) k). }
  destruct missing.
  - unfold bind at 1. unfold bind at 1. unfold tesseract at 1.
    destruct (ocr w ((log ++ new0) ++ new1)) as [ocr_text | e].
    + destruct (openai_explain_from_text w ocr_text (qid j) (answer j) _)
        as [[explanation' | e] log4] eqn:E3;
        apply text_posts in E3 as (new3 & -> & H3); unfold ret;
        intros E; inversion E; subst;
        exists (new0 ++ new1 ++ [Tesseract crop_path] ++ new3);
        (split; [now rewrite <- !app_assoc |]);
        rewrite !count_app, Hs1, Ht1, Hx1;
        destruct H0 as [-> | ->]; destruct H3 as [-> | ->]; cbn;
        repeat split; try lia;
        first [exact (proj1 (Hset _)) | exact (proj2 (Hset _))].
    + intros E; inversion E; subst.
      exists (new0 ++ new1 ++ [Tesseract crop_path]).
      split; [now rewrite <- !app_assoc |].
      rewrite !count_app, Hs1, Ht1, Hx1.
      destruct H0 as [-> | ->]; cbn; repeat split; lia.
  - unfold bind, ret. intros E; inversion E; subst. exists (new0 ++ new1).
    rewrite <- app_assoc. split; [reflexivity |]. rewrite !count_app, Hs1, Ht1, Hx1.
    destruct H0 as [-> | ->]; cbn; repeat split; try lia;
      first [exact (proj1 (Hset _)) | exact (proj2 (Hset _))].
Qed.

Lemma explain_qids_run (page_path : string) (jobs : list job) :
  forall (explanations : Explain.dict Explain.json) (log log' : list call)
         (r : Explain.result (Explain.dict Explain.json)),
    explain_qids w crop_dir page_path jobs explanations log = (r, log') ->
    exists new,
      log' = log ++ new
      /\ within_budget (length jobs) new
      /\ match r with
         | Explain.Ok d =>
             (length jobs <= count is_image_post new)%nat
             /\ (forall j, In j jobs -> Explain.dict_get (qid j) d <> None)
             /\ forall k, Explain.dict_get k explanations <> None
                          -> Explain.dict_get k d <> None
         | Explain.Raised _ => jobs <> []
         end.
Proof.
  induction jobs as [| j jobs IH]; intros explanations log log' r.
  - intros E. inversion E; subst. exists []. rewrite app_nil_r.
    split; [reflexivity |]. split; [repeat split; cbn; lia |].
    split; [cbn; lia |]. split; [intros j [] | auto].
  - cbn [explain_qids]. unfold bind at 1.
    destruct (explain_qid w crop_dir page_path j explanations log) as [[d | e] log1] eqn:E1;
      apply explain_qid_calls in E1 as (new & -> & (Hs & Hi & Ht & Hx) & Hres).
    + intros E. apply IH in E as (new' & -> & (Hs' & Hi' & Ht' & Hx') & Hres').
      exists (new ++ new'). rewrite <- app_assoc. split; [reflexivity |].
      split; [unfold within_budget; rewrite !count_app; cbn [length]; repeat split; lia |].
      destruct r as [d' | e']; [| discriminate].
      destruct Hres as (Hmin & Hq & Hkeep). destruct Hres' as (Hn & Hin & Hkeep').
      rewrite count_app. cbn [length]. split; [lia |]. split.
      * intros j' [<- | Hj']; [now apply Hkeep' | now apply Hin].
      * intros k Hk. now apply Hkeep', Hkeep.
    + intros E. inversion E; subst. exists new. split; [reflexivity |].
      split; [| discriminate]. unfold within_budget. cbn [length]. repeat split; lia.
Qed.

(** The loop over the questions of a page only adds to the record of
    calls, and for each question at most one run of [sips], four POSTs
    of the image (two attempts of two requests), one run of [tesseract]
    and one POST of the OCR text.  A loop that ends without an exception
    has sent at least one POST of the image for each question and holds
    an explanation for every one of them, besides the ones it started
    with; an exception needs at least one question. *)
Theorem explain_qids_budget (page_path : string) (jobs : list job)
        (explanations : Explain.dict Explain.json) (log : list call) :
  exists new,
    snd (explain_qids w crop_dir page_path jobs explanations log) = log ++ new
    /\ within_budget (length jobs) new
    /\ match fst (explain_qids w crop_dir page_path jobs explanations log) with
       | Explain.Ok d =>
           (length jobs <= count is_image_post new)%nat
           /\ (forall j, In j jobs -> Explain.dict_get (qid j) d <> None)
           /\ forall k, Explain.dict_get k explanations <> None
                        -> Explain.dict_get k d <> None
       | Explain.Raised _ => jobs <> []
       end.
Proof.
  destruct (explain_qids w crop_dir page_path jobs explanations log) as [r log'] eqn:E.
  exact (explain_qids_run page_path jobs explanations log log' r E).
Qed.
End BudgetFacts.

(** The budget is met: keys refused twice with an HTTP error, then an
    answer without a story, then the text answered. *)
Example explain_qid_seven_calls :
  let w := Run.mkworld true (fun _ _ => true) (fun _ => true)
             (fun log => match length log with
                         | 1%nat | 2%nat => Run.HTTPError
                         | 3%nat => Run.HTTPError
                         | 4%nat => Run.Body (Explain.Ok (Explain.JObj []))
                         | _ => Run.Body (Explain.Ok (Explain.JObj
                                  [("story"%string, Explain.JStr "Two.")]))
                         end)
             (fun _ => Explain.Ok "Wie viele?"%string) in
  snd (Run.explain_qid w "crops" "page-1.png" (Run.mkjob "A1" "C" true) [] [])
  = [Run.Sips "page-1.png" "crops/A1.jpg";
     Run.ImagePost true "crops/A1.jpg" "A1" "C"; Run.ImagePost false "crops/A1.jpg" "A1" "C";
     Run.ImagePost true "crops/A1.jpg" "A1" "C"; Run.ImagePost false "crops/A1.jpg" "A1" "C";
     Run.Tesseract "crops/A1.jpg"; Run.TextPost "Wie viele?" "A1" "C"].
Proof. vm_compute. reflexivity. Qed.

Section PageSizeFacts.
Import Labels.

(** ** The sizes of the pages *)

(** [pageSizes] has an entry for a page number exactly when the
    HTML of that page carries a page tag with a width and a height, and
    the entry is that size; pages are numbered from 1. *)
Theorem page_sizes_lookup (pages : list page) (key : string) (size : Q * Q) :
  fst (extract_for_pdf pages) !! key = Some size <->
  exists n pg, pages !! n = Some pg /\ key = Py.str (Z.of_nat (S n))
               /\ size_match pg = Some size.
Proof.
  revert key size. induction pages as [| pg pages IH] using rev_ind; intros key size.
  - unfold extract_for_pdf. simpl. rewrite lookup_empty. split; [discriminate |].
    intros (n & pg & H & _). discriminate.
  - rewrite extract_for_pdf_snoc. unfold page_step.
    set (out := extract_for_pdf pages) in *. cbn [fst].
    fold (page_key (length pages)).
    assert (Hold : fst out !! key = Some size ->
                   exists n pg0, (pages ++ [pg]) !! n = Some pg0 /\ key = page_key n
                                 /\ size_match pg0 = Some size).
    { rewrite IH. intros (n & pg' & Hn & Hk & Hs). exists n, pg'.
      split; [| auto]. apply lookup_app_l_Some. exact Hn. }
    destruct (size_match pg) as [sz |] eqn:Esz.
    + destruct (decide (page_key (length pages) = key)) as [<- | Hne].
      * rewrite lookup_insert_eq. split.
        -- intros E. inversion E; subst. exists (length pages), pg.
           split; [| auto]. rewrite lookup_app_r by lia. now rewrite Nat.sub_diag.
        -- intros (n & pg' & Hn & Hk & Hs). apply page_key_inj in Hk. subst n.
           rewrite lookup_app_r in Hn by lia. rewrite Nat.sub_diag in Hn.
           inversion Hn; subst. congruence.
      * rewrite lookup_insert_ne by exact Hne. split; [exact Hold |].
        intros (n & pg' & Hn & Hk & Hs). apply IH.
        apply lookup_app_Some in Hn as [Hn | [Hlen Hn]]; [now exists n, pg' |].
        apply list_lookup_singleton_Some in Hn as [Hz _].
        exfalso. apply Hne. rewrite Hk. replace n with (length pages) by lia. reflexivity.
    + split; [exact Hold |].
      intros (n & pg' & Hn & Hk & Hs). apply IH.
      apply lookup_app_Some in Hn as [Hn | [Hlen Hn]]; [now exists n, pg' |].
      apply list_lookup_singleton_Some in Hn as [_ <-]. congruence.
Qed.
End PageSizeFacts.

Section TranslateFacts.
Import Explain Translate.

(** ** Batches of the translation *)

Lemma batches_concat_upto {A : Type} (items : list A) (m : nat) :
  concat (map (fun i => take batch_size (drop i items))
              (map (fun k => (k * batch_size)%nat) (seq 0 m)))
  = take (m * batch_size) items.
Proof.
  induction m as [| m IH]; [reflexivity |].
  rewrite seq_S, !List.map_app, concat_app, IH.
  cbn [map concat Nat.add]. rewrite app_nil_r, take_take_drop. f_equal. lia.
Qed.

Lemma batches_count {A : Type} (items : list A) :
  length (batches items) = ((length items + 7) / 8)%nat.
Proof.
  unfold batches, range_step, batch_size.
  rewrite !length_map, length_seq. f_equal. lia.
Qed.

Lemma batches_concat {A : Type} (items : list A) : concat (batches items) = items.
Proof.
  unfold batches, range_step. rewrite batches_concat_upto.
  apply take_ge. unfold batch_size.
  pose proof (Nat.div_mod_eq (length items + 8 - 1) 8) as E.
  pose proof (Nat.mod_upper_bound (length items + 8 - 1) 8). lia.
Qed.

Lemma batches_sizes {A : Type} (items : list A) :
  Forall (fun batch => (1 <= length batch <= 8)%nat) (batches items).
Proof.
  unfold batches, range_step. rewrite Forall_forall. intros batch Hin.
  apply list_elem_of_In in Hin.
  apply in_map_iff in Hin as (i & <- & Hi).
  apply in_map_iff in Hi as (k & <- & Hk). apply in_seq in Hk.
  rewrite length_take, length_drop. unfold batch_size in *.
  pose proof (Nat.div_mod_eq (length items + 8 - 1) 8) as E.
  pose proof (Nat.mod_upper_bound (length items + 8 - 1) 8). lia.
Qed.

(** The batches of [translate_all] cut the items into consecutive slices:
    put end to end they give the items back, every batch holds at least
    one and at most eight of them, and there are [ceil(len(items) / 8)]
    batches. *)
Theorem batches_partition {A : Type} (items : list A) :
  concat (batches items) = items
  /\ Forall (fun batch => (1 <= length batch <= 8)%nat) (batches items)
  /\ length (batches items) = ((length items + 7) / 8)%nat.
Proof.
  split; [apply batches_concat | split; [apply batches_sizes | apply batches_count]].
Qed.

(** ** Merging the answers *)

Lemma update_keys {V : Type} (answer translated : dict V) :
  NoDup (map fst translated ++ map fst answer) ->
  map fst (update translated answer) = map fst translated ++ map fst answer.
Proof.
  unfold update. revert translated.
  induction answer as [| [k v] answer IH]; intros translated Hnd; simpl.
  - now rewrite app_nil_r.
  - assert (Hk : dict_get k translated = None).
    { apply dict_get_None. intros Hin.
      apply NoDup_app in Hnd as (_ & Hdis & _).
      apply (Hdis k); [now apply list_elem_of_In | simpl; left]. }
    assert (Hset : map fst (dict_set k v translated) = map fst translated ++ [k]).
    { rewrite dict_set_keys, Hk. reflexivity. }
    rewrite IH; rewrite Hset, <- app_assoc; [reflexivity | exact Hnd].
Qed.

Section Loop.
Variable openai_translate : nat -> dict string -> option (dict string).

Lemma translate_loop_keys (todo : list (dict string)) :
  forall (calls : nat) (translated : dict string),
    NoDup (map fst translated ++ concat (map (map fst) todo)) ->
    (forall i batch, todo !! i = Some batch ->
       exists answer, openai_translate (calls + i) batch = Some answer
                      /\ map fst answer = map fst batch) ->
    exists result,
      translate_loop openai_translate todo calls translated
      = (Some result, (calls + length todo)%nat)
      /\ map fst result = map fst translated ++ concat (map (map fst) todo).
Proof.
  induction todo as [| batch todo IH]; intros calls translated Hnd Hans; simpl.
  - exists translated. rewrite app_nil_r, Nat.add_0_r. now split.
  - destruct (Hans 0%nat batch eq_refl) as (answer & Hcall & Hkeys).
    rewrite Nat.add_0_r in Hcall. rewrite Hcall.
    simpl in Hnd. rewrite app_assoc in Hnd.
    assert (Hup : map fst (update translated answer) = map fst translated ++ map fst batch).
    { rewrite update_keys; rewrite Hkeys; [reflexivity |].
      now apply NoDup_app in Hnd as (Hnd & _). }
    destruct (IH (S calls) (update translated answer)) as (result & Hrun & Hres).
    + now rewrite Hup.
    + intros i b Hi. destruct (Hans (S i) b Hi) as (a & Ha & Hk).
      exists a. split; [| exact Hk]. now replace (S calls + i)%nat with (calls + S i)%nat by lia.
    + exists result. split.
      * rewrite Hrun. f_equal. lia.
      * rewrite Hres, Hup, <- app_assoc. reflexivity.
Qed.

Lemma concat_map_map {A B : Type} (f : A -> B) (ls : list (list A)) :
  concat (map (map f) ls) = map f (concat ls).
Proof.
  induction ls as [| l ls IH]; simpl; [reflexivity |].
  now rewrite List.map_app, IH.
Qed.

(** When every call answers with the keys of its batch,
    [translate_all] makes one call for each batch and returns a dictionary
    with the keys of the explanations, in their order. *)
Theorem translate_all_keeps_keys (explanations : dict string) :
  NoDup (map fst explanations) ->
  (forall i batch, batches explanations !! i = Some batch ->
     exists answer, openai_translate i batch = Some answer
                    /\ map fst answer = map fst batch) ->
  exists translated,
    translate_all openai_translate explanations
    = (Some translated, ((length explanations + 7) / 8)%nat)
    /\ map fst translated = map fst explanations.
Proof.
  intros Hnd Hans. unfold translate_all.
  destruct (translate_loop_keys (batches explanations) 0 []) as (result & Hrun & Hres).
  - simpl. rewrite concat_map_map, (batches_concat explanations). exact Hnd.
  - exact Hans.
  - exists result. split.
    + rewrite Hrun. f_equal. apply (batches_count explanations).
    + rewrite Hres. simpl. now rewrite concat_map_map, (batches_concat explanations).
Qed.

(** The first call that raises ends the loop: the later batches are not
    sent and nothing is returned. *)
Lemma translate_loop_raises (todo : list (dict string)) :
  forall (calls : nat) (translated : dict string) (j : nat) (batch : dict string),
    todo !! j = Some batch ->
    openai_translate (calls + j) batch = None ->
    (forall i b, (i < j)%nat -> todo !! i = Some b -> openai_translate (calls + i) b <> None) ->
    translate_loop openai_translate todo calls translated = (None, S (calls + j)).
Proof.
  induction todo as [| b0 todo IH]; intros calls translated j batch Hj Hfail Hbefore;
    [discriminate |].
  destruct j as [| j]; simpl in *.
  - inversion Hj; subst. rewrite Nat.add_0_r in Hfail. rewrite Hfail.
    now rewrite Nat.add_0_r.
  - destruct (openai_translate calls b0) as [answer |] eqn:E.
    + rewrite (IH (S calls) _ j batch Hj).
      * f_equal. lia.
      * now replace (S calls + j)%nat with (calls + S j)%nat by lia.
      * intros i b Hi Hb. replace (S calls + i)%nat with (calls + S i)%nat by lia.
        apply Hbefore; [lia | exact Hb].
    + exfalso. apply (Hbefore 0%nat b0); [lia | reflexivity |].
      now rewrite Nat.add_0_r.
Qed.

(** When the call for batch [j] is the first to raise, [translate_all]
    returns nothing after [j + 1] calls: no later batch is sent and the
    answers received before are lost. *)
Theorem translate_all_raises (explanations : dict string) (j : nat) (batch : dict string) :
  batches explanations !! j = Some batch ->
  openai_translate j batch = None ->
  (forall i b, (i < j)%nat -> batches explanations !! i = Some b ->
     openai_translate i b <> None) ->
  translate_all openai_translate explanations = (None, S j).
Proof.
  intros Hj Hfail Hbefore. unfold translate_all.
  now rewrite (translate_loop_raises _ 0 [] j batch Hj Hfail Hbefore).
Qed.
End Loop.

Lemma translate_all_keeps_keys_witness :
  let explanations :=
    map (fun i => (String.append "A" (Py.str i), "Loesung"%string))
        [1; 2; 3; 4; 5; 6; 7; 8; 9; 10] in
  exists translated,
    translate_all (fun _ batch => Some batch) explanations = (Some translated, 2%nat)
    /\ map fst translated = map fst explanations.
Proof.
  cbv zeta.
  apply (translate_all_keeps_keys (fun _ batch => Some batch)
           (map (fun i => (String.append "A" (Py.str i), "Loesung"%string))
                [1; 2; 3; 4; 5; 6; 7; 8; 9; 10])).
  - apply (bool_decide_unpack _). vm_compute. reflexivity.
  - intros i batch _. exists batch. split; reflexivity.
Defined.

Lemma translate_all_raises_witness :
  let explanations :=
    map (fun i => (String.append "A" (Py.str i), "Loesung"%string))
        [1; 2; 3; 4; 5; 6; 7; 8; 9; 10] in
  translate_all (fun calls batch => if Nat.eqb calls 1 then None else Some batch)
                explanations
  = (None, 2%nat).
Proof.
  cbv zeta.
  apply (translate_all_raises
           (fun calls batch => if Nat.eqb calls 1 then None else Some batch)
           (map (fun i => (String.append "A" (Py.str i), "Loesung"%string))
                [1; 2; 3; 4; 5; 6; 7; 8; 9; 10])
           1%nat [("A9"%string, "Loesung"%string); ("A10"%string, "Loesung"%string)]).
  - vm_compute. reflexivity.
  - reflexivity.
  - intros i b Hi _. assert (i = 0%nat) by lia. subst i. discriminate.
Defined.

End TranslateFacts.

Section PdfFacts.
Import Pdf.

(** ** Literals of a content stream *)

Lemma scan_escape (s : bytes) :
  forall (depth : nat) (buf rest : bytes),
    scan (escape s ++ rest) (Inside depth buf) = scan rest (Inside depth (buf ++ s)).
Proof.
  induction s as [| c s IH]; intros depth buf rest.
  - now rewrite app_nil_r.
  - cbn [escape]. destruct (special c) eqn:E.
    + change (scan (escape s ++ rest) (Inside depth (buf ++ [c]))
              = scan rest (Inside depth (buf ++ c :: s))).
      rewrite IH, <- app_assoc. reflexivity.
    + unfold special in E. apply orb_false_iff in E as [E E3].
      apply orb_false_iff in E as [E1 E2].
      cbn [app scan]. rewrite E3, E1, E2, IH, <- app_assoc. reflexivity.
Qed.

Lemma scan_outside (pre : bytes) (rest : bytes) :
  Forall (fun b => b <> "("%char) pre ->
  scan (pre ++ rest) Outside = scan rest Outside.
Proof.
  induction 1 as [| b pre Hb _ IH]; [reflexivity |].
  cbn [app scan]. apply Ascii.eqb_neq in Hb. now rewrite Hb.
Qed.

(** A literal written with its parentheses and backslashes escaped
    is read back byte for byte, whatever stands before it outside a
    literal and after it; an empty literal is dropped. *)
Theorem literal_round_trip (pre s rest : bytes) :
  Forall (fun b => b <> "("%char) pre ->
  literals (pre ++ quote s ++ rest) = emit s (literals rest).
Proof.
  intros Hpre. unfold literals, quote. rewrite (scan_outside _ _ Hpre).
  change (scan ((escape s ++ [")"%char]) ++ rest) (Inside 1 []) = emit s (scan rest Outside)).
  rewrite <- app_assoc, scan_escape. reflexivity.
Qed.

Lemma literal_round_trip_witness :
  literals (list_ascii_of_string "BT /F1 9 Tf (1 L\(o\)sung: a\\b) Tj (x) Tj")
  = [list_ascii_of_string "1 L(o)sung: a\b"; list_ascii_of_string "x"].
Proof.
  apply (literal_round_trip (list_ascii_of_string "BT /F1 9 Tf ")
           (list_ascii_of_string "1 L(o)sung: a\b") (list_ascii_of_string " Tj (x) Tj")).
  repeat constructor; discriminate.
Defined.

(** ** The text handed to [main] *)

Lemma kept_printable (c : ascii) :
  kept c = true -> Py.isspace c = false -> Py.between 32 126 c = true.
Proof.
  unfold kept, Py.isspace, Py.between, Py.code.
  destruct c as [[] [] [] [] [] [] [] []]; vm_compute; congruence.
Qed.

Lemma space_is_space (c : ascii) : Py.isspace c = false -> c <> " "%char.
Proof. intros H ->. discriminate. Qed.

Lemma collapse_printable (s : bytes) :
  forall in_run, Forall (fun c => kept c = true) s -> printable (collapse in_run s).
Proof.
  induction s as [| c s IH]; intros in_run H; [constructor |].
  apply Forall_cons in H as [Hc Hs]. cbn [collapse].
  destruct (Py.isspace c) eqn:E.
  - destruct in_run; [now apply IH |]. constructor; [reflexivity | now apply IH].
  - constructor; [now apply kept_printable | now apply IH].
Qed.

Lemma single_spaced_cons (c : ascii) (t : bytes) :
  single_spaced t -> (c = " "%char -> head t <> Some " "%char) -> single_spaced (c :: t).
Proof.
  intros Ht Hc [| i] Hi.
  - simpl in Hi. inversion Hi. destruct t; [discriminate | now apply Hc].
  - now apply Ht.
Qed.

Lemma collapse_single_spaced (s : bytes) :
  forall in_run,
    single_spaced (collapse in_run s)
    /\ (in_run = true -> head (collapse in_run s) <> Some " "%char).
Proof.
  induction s as [| c s IH]; intros in_run.
  - split; [intros i Hi; discriminate | discriminate].
  - cbn [collapse]. destruct (Py.isspace c) eqn:E.
    + destruct in_run.
      * apply IH.
      * split; [| discriminate]. apply single_spaced_cons; [apply IH |].
        intros _. now apply IH.
    + pose proof (space_is_space c E) as Hne. split.
      * apply single_spaced_cons; [apply IH | intros Hc; contradiction].
      * intros _. simpl. congruence.
Qed.

Lemma extract_text_is_printable (streams : list bytes) : printable (extract_text streams).
Proof.
  unfold extract_text. apply collapse_printable.
  rewrite Forall_forall. intros c Hc. apply list_elem_of_In, filter_In in Hc. tauto.
Qed.

(** The text returned by [extract_text_from_pdf] holds printable
    ASCII only, code points 32 to 126, so neither a newline nor a letter
    outside ASCII, and never two spaces in a row. *)
Theorem extract_text_printable (streams : list bytes) :
  printable (extract_text streams) /\ single_spaced (extract_text streams).
Proof.
  split; [apply extract_text_is_printable | apply collapse_single_spaced].
Qed.

End PdfFacts.

Section PatternFacts.
Import SolutionsMain Solutions.

(** ** A pattern that needs a letter outside ASCII *)

Lemma dead_here {R : Type} (k : text -> option R) (s : text) : dead k s -> k s = None.
Proof. intros H. now apply H. Qed.

Lemma dead_tail {R : Type} (k : text -> option R) (x : ascii) (s : text) :
  dead k (x :: s) -> dead k s.
Proof. intros H t Ht. apply H. now apply suffix_cons_r. Qed.

Lemma spaces_dead {R : Type} (k : text -> option R) (s : text) :
  dead k s -> spaces k s = None.
Proof.
  induction s as [| x s IH]; intros H; simpl.
  - now apply dead_here.
  - rewrite (IH (dead_tail _ _ _ H)), (dead_here _ _ H). now destruct (Py.isspace x).
Qed.

Lemma digits_star_dead {R : Type} (k : text -> option R) (s : text) :
  dead k s -> digits_star k s = None.
Proof.
  induction s as [| x s IH]; intros H; simpl.
  - now apply dead_here.
  - rewrite (IH (dead_tail _ _ _ H)), (dead_here _ _ H). now destruct (Py.is_digit x).
Qed.

Lemma printable_suffix (t s : text) : suffix t s -> printable s -> printable t.
Proof.
  intros [pre ->] H. unfold printable in *. now apply Forall_app in H as [_ H].
Qed.

Lemma umlaut_not_printable (x : ascii) :
  Py.between 32 126 x = true -> ci_eq (ascii_of_N 246) x = false.
Proof.
  destruct x as [[] [] [] [] [] [] [] []]; vm_compute; congruence.
Qed.

Lemma loesung_fails {R : Type} (k : text -> option R) (s : text) :
  printable s -> SolutionsMain.matching loesung k s = None.
Proof.
  intros H. unfold loesung, Loesung.
  cbn [SolutionsMain.matching spaced_pattern matching].
  destruct s as [| x s]; [reflexivity |].
  destruct (ci_eq "L" x); [| reflexivity].
  apply spaces_dead. intros t Ht.
  assert (Hp : printable t).
  { apply (printable_suffix t (x :: s)); [now apply suffix_cons_r | exact H]. }
  destruct t as [| y t]; [reflexivity |].
  apply Forall_cons in Hp as [Hy _]. now rewrite (umlaut_not_printable y Hy).
Qed.

Lemma marker_fails {R : Type} (k : text -> option R) (s : text) :
  printable s -> SolutionsMain.matching marker k s = None.
Proof.
  intros H. unfold marker. cbn [SolutionsMain.matching].
  destruct s as [| x s]; [reflexivity |].
  destruct (Py.is_digit x); [| reflexivity].
  apply digits_star_dead. intros t Ht.
  change (spaces (SolutionsMain.matching loesung
            (SolutionsMain.matching (Seq (Re Spaces) (Class [":"; "."]%char)) k)) t = None).
  apply spaces_dead. intros u Hu. apply loesung_fails.
  apply (printable_suffix u (x :: s)); [| exact H].
  apply suffix_cons_r. now transitivity t.
Qed.

Lemma pattern_fails (s : text) : printable s -> any_match pattern s = false.
Proof.
  induction s as [| x s IH]; intros H; cbn [any_match];
    unfold pattern at 1; cbn [SolutionsMain.matching];
    rewrite (marker_fails _ _ H); [reflexivity |].
  apply IH. now apply Forall_cons in H as [_ H].
Qed.

Lemma slice_printable (t : text) (a b : nat) : printable t -> printable (slice t a b).
Proof.
  intros H. unfold slice, printable in *. now apply Forall_take, Forall_drop.
Qed.

Lemma main_section_printable (t section : text) (printed : list string) :
  printable t -> main_section t = (printed, Proceed section) -> printable section.
Proof.
  intros H. unfold main_section.
  destruct (search section_start t 0) as [[a e] |]; [| discriminate].
  destruct (search section_end t e) as [[s' e'] |]; [| discriminate].
  intros E. inversion E. now apply slice_printable.
Qed.

(** On a text of printable ASCII [main] never gets past the search for
    solutions. *)
Lemma main_text_exits (t : text) :
  printable t -> exists printed, main_text t = (printed, Exit 1) /\ printed <> [].
Proof.
  intros H. unfold main_text.
  destruct (main_section t) as [printed [code | section]] eqn:E.
  - unfold main_section in E.
    destruct (search section_start t 0) as [[a e] |].
    + destruct (search section_end t e) as [[s' e'] |]; inversion E; subst.
      eexists. split; [reflexivity | discriminate].
    + inversion E; subst. eexists. split; [reflexivity | discriminate].
  - rewrite (pattern_fails section (main_section_printable _ _ _ H E)).
    eexists. split; [reflexivity |]. now destruct printed.
Qed.

(** extract_solutions.py never reaches the writing of the explanations:
    whatever the arguments and the PDF, [main] ends with status 1.  The
    text it reads holds ASCII only, while every match of the pattern of
    the solutions needs the o-umlaut of its word, so no part of the text
    has a match. *)
Theorem main_never_writes (argv : list string) (path_exists : string -> bool)
        (streams : list Pdf.bytes) :
  SolutionsMain.main argv path_exists streams = Exit 1
  /\ forall a b, any_match pattern (slice (Pdf.extract_text streams) a b) = false.
Proof.
  split.
  - unfold SolutionsMain.main, main_args.
    destruct argv as [| a0 [| pdf_path [| year argv]]]; try reflexivity.
    destruct (path_exists pdf_path); [| reflexivity]. cbn [negb].
    destruct (main_text_exits (Pdf.extract_text streams)) as (printed & E & _);
      [apply extract_text_is_printable |].
    now rewrite E.
  - intros a b. apply pattern_fails, slice_printable, extract_text_is_printable.
Qed.

(** The pattern itself is satisfiable: with the o-umlaut in the text the
    solutions are found. *)
Example pattern_matches_umlaut :
  any_match pattern
    (list_ascii_of_string "1 L" ++ ascii_of_N 246 :: list_ascii_of_string "sung: a 2 L"
     ++ ascii_of_N 246 :: list_ascii_of_string "sung. b") = true
  /\ any_match pattern (list_ascii_of_string "1 Loesung: a 2 Losung. b") = false.
Proof. split; vm_compute; reflexivity. Qed.

End PatternFacts.
